(** * Visual odometry front end of SLAMModule.jsx

    A shallow embedding of the visual pipeline of the SLAM module
    (feature extraction, patch tracking, pose-delta estimation, landmark
    map maintenance and the per-frame cycle), followed by the properties
    established about it.

    Conventions of the embedding:
    - pixel coordinates, intensities, counters and landmark qualities are
      JavaScript numbers that only ever hold integers; they are [Z];
    - densities, depth readings and the fractional thresholds of the
      classifier are exact rationals [Q];
    - poses, landmark positions and angles are real numbers [R]; the
      rounding of IEEE doubles is not modelled;
    - a typed array is a length together with its content, and a read
      outside [0, length) yields [None] (JavaScript's [undefined]);
    - [Date.now()] and [Math.random()] are inputs supplied by the
      environment. *)

From Stdlib Require Import ZArith List Bool Lia Permutation Sorted.
From Stdlib Require Import QArith Qminmax.
From Stdlib Require Import Reals Lra.
Import ListNotations.

Open Scope Z_scope.

(* ================================================================== *)
(** ** JavaScript building blocks *)
(* ================================================================== *)

Module Js.

(** A typed array (or plain array used read-only). *)
Record TypedArray (A : Type) := mkArray {
  arr_length : Z;
  arr_get : Z -> A
}.
Arguments mkArray {A} _ _.
Arguments arr_length {A} _.
Arguments arr_get {A} _ _.

(** [a[i]]: [None] stands for [undefined]. *)
Definition read {A} (a : TypedArray A) (i : Z) : option A :=
  if (0 <=? i) && (i <? arr_length a) then Some (arr_get a i) else None.

(** The values taken by [v] in [for (let v = start; v < stop; v += step)]. *)
Definition forRange (start stop step : Z) : list Z :=
  map (fun k => start + step * Z.of_nat k)
      (seq 0 (Z.to_nat ((stop - start + step - 1) / step))).

(** [Array.prototype.sort(cmp)]: a stable sort driven by the sign of the
    comparator, here by insertion. *)
Section Sort.
Context {A : Type} (cmp : A -> A -> Z).

Fixpoint insert (x : A) (l : list A) : list A :=
  match l with
  | [] => [x]
  | y :: l' => if cmp x y <=? 0 then x :: l else y :: insert x l'
  end.

Fixpoint sort (l : list A) : list A :=
  match l with
  | [] => []
  | x :: l' => insert x (sort l')
  end.
End Sort.

(** [Math.atan2(y, x)] on integer arguments (no negative zero arises
    from an integer subtraction). *)
Definition atan2 (y x : Z) : R :=
  if 0 <? x then atan (IZR y / IZR x)
  else if x <? 0 then
    (if 0 <=? y then atan (IZR y / IZR x) + PI
     else atan (IZR y / IZR x) - PI)%R
  else if 0 <? y then (PI / 2)%R
  else if y <? 0 then (- (PI / 2))%R
  else 0%R.

End Js.

(* ================================================================== *)
(** ** Data model *)
(* ================================================================== *)

(** [ImageData]: RGBA bytes, four per pixel, row-major. *)
Record ImageData := mkImage {
  width : Z;
  height : Z;
  data : Js.TypedArray Z
}.

(** Optional per-pixel depth, [depthData.data]. *)
Record DepthData := mkDepth {
  depth_data : option (Js.TypedArray Q)
}.

Inductive FeatureType := obstacle | environment.

(** A feature as returned by [extractFeatures]. *)
Record Feature := mkFeature {
  feat_x : Z;
  feat_y : Z;
  feat_score : Z;
  feat_type : FeatureType;
  feat_depth : option Q
}.

Record Point := mkPoint { pt_x : Z; pt_y : Z }.

(** An entry of the array returned by [trackFeatures]. *)
Record Match := mkMatch {
  prev : Feature;
  curr : Point;
  match_score : Z
}.

Record PoseDelta := mkDelta { dx : R; dy : R; dHeading : R }.

Record Pose := mkPose { pose_x : R; pose_y : R; heading : R }.

Record Landmark := mkLandmark {
  lm_id : R;
  lm_x : R;
  lm_y : R;
  quality : Z
}.

(* ================================================================== *)
(** ** MotionEstimator: [estimatePose] *)
(* ================================================================== *)

Module Estimator.

Record Displacement := mkDisp { disp_dx : Z; disp_dy : Z }.

Definition zeroDelta : PoseDelta := mkDelta 0 0 0.

(** [const pixelToMeter = 0.001] *)
Definition pixelToMeter : R := (1 / 1000)%R.

(** The bound of [Math.abs(dAngle) < 0.5]. *)
Definition maxRotation : R := (1 / 2)%R.

Definition displacementsOf (matches : list Match) : list Displacement :=
  map (fun m => mkDisp (pt_x (curr m) - feat_x (prev m))
                       (pt_y (curr m) - feat_y (prev m))) matches.

(** [arr[Math.floor(arr.length / 2)]] *)
Definition middle (l : list Displacement) : Displacement :=
  nth (Nat.div (length l) 2) l (mkDisp 0 0).

Definition byDx (a b : Displacement) : Z := disp_dx a - disp_dx b.
Definition byDy (a b : Displacement) : Z := disp_dy a - disp_dy b.

(** The angle difference of one match, after the two normalising
    conditionals. *)
Definition dAngleOf (m : Match) : R :=
  let angle1 := Js.atan2 (feat_y (prev m) - 240) (feat_x (prev m) - 320) in
  let angle2 := Js.atan2 (pt_y (curr m) - 240) (pt_x (curr m) - 320) in
  let dAngle := (angle2 - angle1)%R in
  let dAngle := if Rlt_dec PI dAngle then (dAngle - 2 * PI)%R else dAngle in
  let dAngle := if Rlt_dec dAngle (- PI) then (dAngle + 2 * PI)%R else dAngle in
  dAngle.

(** One iteration of the rotation loop on (rotationSum, rotationCount). *)
Definition rotationStep (acc : R * Z) (m : Match) : R * Z :=
  let dAngle := dAngleOf m in
  if Rlt_dec (Rabs dAngle) maxRotation
  then ((fst acc + dAngle)%R, snd acc + 1)
  else acc.

Definition estimatePose (matches : list Match) : PoseDelta :=
  if Z.of_nat (length matches) <? 5 then zeroDelta
  else
    let displacements := displacementsOf matches in
    (* the array is sorted in place, twice *)
    let displacements := Js.sort byDx displacements in
    let medianDx := disp_dx (middle displacements) in
    let displacements := Js.sort byDy displacements in
    let medianDy := disp_dy (middle displacements) in
    let '(rotationSum, rotationCount) :=
      fold_left rotationStep matches (0%R, 0) in
    let dHeading :=
      if 0 <? rotationCount then (rotationSum / IZR rotationCount)%R
      else 0%R in
    mkDelta (- IZR medianDx * pixelToMeter)
            (IZR medianDy * pixelToMeter)
            dHeading.

(** Simplified fusion: visual odometry only. *)
Definition fuseIMU (visualPose : PoseDelta) (dt : R) : PoseDelta :=
  visualPose.

End Estimator.

(* ================================================================== *)
(** ** FeatureDetector: [extractFeatures] *)
(* ================================================================== *)

Module Detector.

(** A corner candidate, as stored in [grid]. *)
Record RawFeature := mkRaw {
  raw_x : Z;
  raw_y : Z;
  raw_score : Z;
  brighterCount : Z;
  darkerCount : Z;
  raw_depth : option Q
}.

Definition threshold : Z := 20.
Definition gridSize : Z := 6.
Definition clusterSize : Z := 35.
Definition maxFeatures : nat := 1500.

Definition circle : list (Z * Z) :=
  [ (-3, 0); (-3, 1); (-2, 2); (-1, 3); (0, 3); (1, 3); (2, 2); (3, 1);
    (3, 0); (3, -1); (2, -2); (1, -3); (0, -3); (-1, -3); (-2, -2);
    (-3, -1) ].

(** [a > b] and [a < b] where either side may be [undefined] (then the
    comparison is false). *)
Definition jsGt (a b : option Z) : bool :=
  match a, b with Some u, Some v => v <? u | _, _ => false end.
Definition jsLt (a b : option Z) : bool :=
  match a, b with Some u, Some v => u <? v | _, _ => false end.

(** One iteration of the ring loop on (brighterCount, darkerCount). *)
Definition ringStep (frame : ImageData) (x y : Z) (centerIntensity : option Z)
    (acc : Z * Z) (off : Z * Z) : Z * Z :=
  let '(brighter, darker) := acc in
  let '(ox, oy) := off in
  let checkIdx := ((y + oy) * width frame + (x + ox)) * 4 in
  let intensity := Js.read (data frame) checkIdx in
  let brighter :=
    if jsGt intensity (option_map (fun c => c + threshold) centerIntensity)
    then brighter + 1 else brighter in
  let darker :=
    if jsLt intensity (option_map (fun c => c - threshold) centerIntensity)
    then darker + 1 else darker in
  (brighter, darker).

Definition ringCounts (frame : ImageData) (x y : Z) : Z * Z :=
  let centerIdx := y * width frame + x in
  let centerIntensity := Js.read (data frame) (centerIdx * 4) in
  fold_left (ringStep frame x y centerIntensity) circle (0, 0).

(** The depth attached to a candidate. *)
Definition depthAt (depthData : option DepthData) (centerIdx : Z) : option Q :=
  match depthData with
  | Some dd =>
      match depth_data dd with
      | Some arr =>
          if centerIdx <? Js.arr_length arr then Js.read arr centerIdx
          else None
      | None => None
      end
  | None => None
  end.

(** [grid]: an object keyed by the cell, enumerated in insertion order. *)
Definition Grid := list ((Z * Z) * RawFeature).

Definition keyEqb (a b : Z * Z) : bool :=
  (fst a =? fst b) && (snd a =? snd b).

Fixpoint gridGet (g : Grid) (k : Z * Z) : option RawFeature :=
  match g with
  | [] => None
  | (k', v) :: g' => if keyEqb k k' then Some v else gridGet g' k
  end.

(** [grid[k] = v]: an existing key keeps its place, a new key goes last. *)
Fixpoint gridSet (g : Grid) (k : Z * Z) (v : RawFeature) : Grid :=
  match g with
  | [] => [(k, v)]
  | (k', v') :: g' =>
      if keyEqb k k' then (k', v) :: g' else (k', v') :: gridSet g' k v
  end.

(** The body of the two sampling loops at (x, y). *)
Definition visit (frame : ImageData) (depthData : option DepthData)
    (y : Z) (grid : Grid) (x : Z) : Grid :=
  let centerIdx := y * width frame + x in
  let '(brighter, darker) := ringCounts frame x y in
  if (12 <=? brighter) || (12 <=? darker) then
    let score := Z.max brighter darker in
    let gridKey := (x / gridSize, y / gridSize) in
    let depth := depthAt depthData centerIdx in
    match gridGet grid gridKey with
    | Some old =>
        if raw_score old <? score
        then gridSet grid gridKey (mkRaw x y score brighter darker depth)
        else grid
    | None => gridSet grid gridKey (mkRaw x y score brighter darker depth)
    end
  else grid.

Definition scanRow (frame : ImageData) (depthData : option DepthData)
    (grid : Grid) (y : Z) : Grid :=
  fold_left (visit frame depthData y)
            (Js.forRange 10 (width frame - 10) 3) grid.

Definition scan (frame : ImageData) (depthData : option DepthData) : Grid :=
  fold_left (scanRow frame depthData)
            (Js.forRange 10 (height frame - 10) 3) [].

(** [for (let key in grid) rawFeatures.push(grid[key])] *)
Definition rawFeaturesOf (frame : ImageData) (depthData : option DepthData)
    : list RawFeature :=
  map snd (scan frame depthData).

(** [clusterMap]: a [Map] from cluster cell to the candidates in it. *)
Definition ClusterMap := list ((Z * Z) * list RawFeature).

Definition clusterKey (feat : RawFeature) : Z * Z :=
  (raw_x feat / clusterSize, raw_y feat / clusterSize).

Fixpoint clusterPush (m : ClusterMap) (k : Z * Z) (feat : RawFeature)
    : ClusterMap :=
  match m with
  | [] => [(k, [feat])]
  | (k', c) :: m' =>
      if keyEqb k k' then (k', c ++ [feat]) :: m'
      else (k', c) :: clusterPush m' k feat
  end.

Fixpoint clusterGet (m : ClusterMap) (k : Z * Z) : list RawFeature :=
  match m with
  | [] => []
  | (k', c) :: m' => if keyEqb k k' then c else clusterGet m' k
  end.

Definition buildClusters (rawFeatures : list RawFeature) : ClusterMap :=
  fold_left (fun m feat => clusterPush m (clusterKey feat) feat)
            rawFeatures [].

(** Scene statistics computed from the cluster map. *)
Record Stats := mkStats {
  medianClusterSize : Z;
  avgClusterSize : Q;
  obstacleDensityThreshold : Q
}.

Definition statsOf (clusterMap : ClusterMap) : Stats :=
  let clusterSizes := map (fun kc => Z.of_nat (length (snd kc))) clusterMap in
  let totalFeatures := fold_left Z.add clusterSizes 0 in
  let clusterSizes := Js.sort (fun a b => a - b) clusterSizes in
  let medianClusterSize :=
    match nth_error clusterSizes (Nat.div (length clusterSizes) 2) with
    | Some 0 | None => 1   (* [... || 1] *)
    | Some n => n
    end in
  let avgClusterSize :=
    (inject_Z totalFeatures
     / inject_Z (Z.max (Z.of_nat (length clusterMap)) 1))%Q in
  mkStats medianClusterSize avgClusterSize
          (Qmax (5 # 2) (avgClusterSize * (7 # 5))).

Definition Qltb (a b : Q) : bool := negb (Qle_bool b a).

(** The classification rules, in the order the code tries them. *)
Definition depthRule (feat : RawFeature) (clusterDensity : Z) : bool :=
  match raw_depth feat with
  | Some d =>
      if Qltb d (9 # 5) then true
      else Qltb (1 # 2) d && Qltb d 4 && (2 <=? clusterDensity)
  | None => false
  end.

Definition denseClusterRule (st : Stats) (clusterDensity : Z) : bool :=
  Qle_bool (obstacleDensityThreshold st * (11 # 10)) (inject_Z clusterDensity).

Definition highContrastRule (feat : RawFeature) : bool :=
  (15 <=? raw_score feat)
  && (Z.abs (brighterCount feat - darkerCount feat) <=? 2).

Definition centerRule (frame : ImageData) (st : Stats) (feat : RawFeature)
    (clusterDensity : Z) : bool :=
  Qltb (inject_Z (width frame) * (3 # 10)) (inject_Z (raw_x feat))
  && Qltb (inject_Z (raw_x feat)) (inject_Z (width frame) * (7 # 10))
  && Qltb (inject_Z (height frame) * (2 # 10)) (inject_Z (raw_y feat))
  && Qltb (inject_Z (raw_y feat)) (inject_Z (height frame) * (8 # 10))
  && Qle_bool (inject_Z (medianClusterSize st) * (7 # 5))
              (inject_Z clusterDensity).

Definition strongCornerRule (feat : RawFeature) : bool :=
  16 <=? raw_score feat.

Definition anomalyRule (st : Stats) (clusterDensity : Z) : bool :=
  Qltb (inject_Z (medianClusterSize st) * (11 # 5)) (inject_Z clusterDensity).

Definition isObstacle (frame : ImageData) (st : Stats)
    (clusterMap : ClusterMap) (feat : RawFeature) : bool :=
  let clusterDensity :=
    Z.of_nat (length (clusterGet clusterMap (clusterKey feat))) in
  depthRule feat clusterDensity
  || denseClusterRule st clusterDensity
  || highContrastRule feat
  || centerRule frame st feat clusterDensity
  || strongCornerRule feat
  || anomalyRule st clusterDensity.

Definition toFeature (feat : RawFeature) : Feature :=
  mkFeature (raw_x feat) (raw_y feat) (raw_score feat) obstacle
            (raw_depth feat).

Definition extractFeatures (frameData : ImageData)
    (depthData : option DepthData) : list Feature :=
  let rawFeatures := rawFeaturesOf frameData depthData in
  let clusterMap := buildClusters rawFeatures in
  let st := statsOf clusterMap in
  let features :=
    map toFeature (filter (isObstacle frameData st clusterMap) rawFeatures) in
  firstn maxFeatures features.

End Detector.


(* ================================================================== *)
(** ** DescriptorPatch and FeatureTracker: [computeDescriptor],
       [trackFeatures] *)
(* ================================================================== *)

Module Tracker.

Definition patchSize : Z := 3.
Definition searchRadius : Z := 20.
Definition acceptBelow : Z := 3000.

(** The patch around (x, y), row-major; [data[idx] || 0]. *)
Definition computeDescriptor (frameData : ImageData) (x y : Z) : list Z :=
  flat_map
    (fun oy =>
       map (fun ox =>
              let idx := ((y + oy) * width frameData + (x + ox)) * 4 in
              match Js.read (data frameData) idx with
              | Some v => v
              | None => 0
              end)
           (Js.forRange (- patchSize) (patchSize + 1) 1))
    (Js.forRange (- patchSize) (patchSize + 1) 1).

(** Sum of squared differences of two descriptors. *)
Definition ssdOf (prevDesc currDesc : list Z) : Z :=
  fold_left (fun ssd pc => ssd + (fst pc - snd pc) * (fst pc - snd pc))
            (combine prevDesc currDesc) 0.

(** (bestMatch, bestScore); [None] is (null, Infinity). *)
Definition Best := option (Point * Z).

Definition tryCandidate (currFrame : ImageData) (prevDesc : list Z)
    (prevFeat : Feature) (oy : Z) (best : Best) (ox : Z) : Best :=
  let currX := feat_x prevFeat + ox in
  let currY := feat_y prevFeat + oy in
  if (currX <? 10) || (width currFrame - 10 <=? currX)
     || (currY <? 10) || (height currFrame - 10 <=? currY)
  then best
  else
    let currDesc := computeDescriptor currFrame currX currY in
    let ssd := ssdOf prevDesc currDesc in
    match best with
    | Some (_, bestScore) =>
        if ssd <? bestScore then Some (mkPoint currX currY, ssd) else best
    | None => Some (mkPoint currX currY, ssd)
    end.

Definition offsets : list Z :=
  Js.forRange (- searchRadius) (searchRadius + 1) 3.

Definition searchWindow (currFrame : ImageData) (prevDesc : list Z)
    (prevFeat : Feature) : Best :=
  fold_left
    (fun best oy =>
       fold_left (tryCandidate currFrame prevDesc prevFeat oy) offsets best)
    offsets None.

(** The body of the sampling loop: at most one match is pushed. *)
Definition trackOne (prevFrame currFrame : ImageData) (prevFeat : Feature)
    : list Match :=
  let prevDesc := computeDescriptor prevFrame (feat_x prevFeat) (feat_y prevFeat) in
  match searchWindow currFrame prevDesc prevFeat with
  | Some (bestMatch, bestScore) =>
      if bestScore <? acceptBelow
      then [mkMatch prevFeat bestMatch bestScore]
      else []
  | None => []
  end.

Definition sampleStep (prevFeatures : list Feature) : Z :=
  Z.max 1 (Z.of_nat (length prevFeatures) / 300).

(** The indices visited by
    [for (let i = 0; i < prevFeatures.length; i += sampleStep)]. *)
Definition sampleIndices (prevFeatures : list Feature) : list Z :=
  Js.forRange 0 (Z.of_nat (length prevFeatures)) (sampleStep prevFeatures).

Definition trackFeatures (prevFrame currFrame : ImageData)
    (prevFeatures : list Feature) : list Match :=
  flat_map
    (fun i =>
       match nth_error prevFeatures (Z.to_nat i) with
       | Some prevFeat => trackOne prevFrame currFrame prevFeat
       | None => []
       end)
    (sampleIndices prevFeatures).

End Tracker.

(* ================================================================== *)
(** ** LandmarkMap: [updateMap] *)
(* ================================================================== *)

Module LandmarkMap.

(** What the environment returns for one evaluation of
    [Date.now() + Math.random()]. *)
Record Entropy := mkEntropy { now : Z; random : R }.

Definition freshId (e : Entropy) : R := (IZR (now e) + random e)%R.

Definition maxLandmarks : Z := 500.
Definition maxQuality : Z := 10.

(** [matchThreshold * 0.001] with [matchThreshold = 10]. *)
Definition matchDistance : R := (10 * (1 / 1000))%R.

Definition worldX (currentPose : Pose) (feat : Feature) : R :=
  (pose_x currentPose
   + IZR (feat_x feat) * (1 / 1000) * cos (heading currentPose))%R.

Definition worldY (currentPose : Pose) (feat : Feature) : R :=
  (pose_y currentPose
   + IZR (feat_x feat) * (1 / 1000) * sin (heading currentPose))%R.

(** [Math.hypot(a, b)] *)
Definition hypot (a b : R) : R := sqrt (a * a + b * b).

(** The in-place update of a matched landmark. *)
Definition fuse (lm : Landmark) (wx wy : R) : Landmark :=
  mkLandmark (lm_id lm)
             ((lm_x lm * IZR (quality lm) + wx) / (IZR (quality lm) + 1))
             ((lm_y lm * IZR (quality lm) + wy) / (IZR (quality lm) + 1))
             (Z.min (quality lm + 1) maxQuality).

(** The inner loop: the first landmark closer than the match distance is
    fused and the loop breaks; [None] when [matched] stays false. *)
Fixpoint matchExisting (wx wy : R) (lms : list Landmark)
    : option (list Landmark) :=
  match lms with
  | [] => None
  | lm :: rest =>
      if Rlt_dec (hypot (lm_x lm - wx) (lm_y lm - wy)) matchDistance
      then Some (fuse lm wx wy :: rest)
      else option_map (cons lm) (matchExisting wx wy rest)
  end.

(** The body of [features.forEach]; the second component counts the
    identifiers drawn so far. *)
Definition observe (ids : nat -> Entropy) (currentPose : Pose)
    (st : list Landmark * nat) (feat : Feature) : list Landmark * nat :=
  let '(updatedLandmarks, drawn) := st in
  let wx := worldX currentPose feat in
  let wy := worldY currentPose feat in
  match matchExisting wx wy updatedLandmarks with
  | Some fused => (fused, drawn)
  | None =>
      if Z.of_nat (length updatedLandmarks) <? maxLandmarks
      then (updatedLandmarks ++ [mkLandmark (freshId (ids drawn)) wx wy 1],
            S drawn)
      else (updatedLandmarks, drawn)
  end.

Definition updateMap (ids : nat -> Entropy) (landmarks : list Landmark)
    (features : list Feature) (currentPose : Pose) : list Landmark :=
  fst (fold_left (observe ids currentPose) features (landmarks, 0%nat)).

End LandmarkMap.

(* ================================================================== *)
(** ** OdometryPipeline: [processSLAMFrame], [handleReset] *)
(* ================================================================== *)

Module Pipeline.

Record Position := mkPosition { pos_x : R; pos_y : R }.

(** The refs that carry the SLAM state from one cycle to the next. *)
Record State := mkState {
  poseRef : Pose;
  trajectoryRef : list Position;
  landmarksRef : list Landmark;
  prevFeaturesRef : option (list Feature);
  prevFrameRef : option ImageData
}.

(** What one cycle takes from its collaborators: the grayscale frame,
    the depth ref, the elapsed time and the identifiers' entropy. *)
Record Inputs := mkInputs {
  grayData : ImageData;
  depthData : option DepthData;
  dt : R;
  ids : nat -> LandmarkMap.Entropy
}.

Definition maxTrajectory : nat := 500.

(** The initial values of the refs. *)
Definition initialState : State :=
  mkState (mkPose 0 0 0) [mkPosition 0 0] [] None None.

Definition handleReset (s : State) : State :=
  mkState (mkPose 0 0 0) [mkPosition 0 0] [] None None.

(** [matches] of a cycle: the tracker runs only when both previous refs
    are set. *)
Definition cycleMatches (s : State) (inp : Inputs) : list Match :=
  match prevFrameRef s, prevFeaturesRef s with
  | Some prevFrame, Some prevFeatures =>
      Tracker.trackFeatures prevFrame (grayData inp) prevFeatures
  | _, _ => []
  end.

(** [poseDelta] of a cycle. *)
Definition cycleDelta (s : State) (inp : Inputs) : PoseDelta :=
  let matches := cycleMatches s inp in
  if 5 <? Z.of_nat (length matches)
  then Estimator.fuseIMU (Estimator.estimatePose matches) (dt inp)
  else Estimator.zeroDelta.

(** [newTrajectory.shift()] above the cap. *)
Definition appendPosition (trajectory : list Position) (p : Position)
    : list Position :=
  let newTrajectory := trajectory ++ [p] in
  if (maxTrajectory <? length newTrajectory)%nat
  then tl newTrajectory else newTrajectory.

(** One cycle whose entry guard passed. *)
Definition processSLAMFrame (s : State) (inp : Inputs) : State :=
  let features := Detector.extractFeatures (grayData inp) (depthData inp) in
  let poseDelta := cycleDelta s inp in
  let newPose :=
    mkPose (pose_x (poseRef s) + dx poseDelta)
           (pose_y (poseRef s) + dy poseDelta)
           (heading (poseRef s) + dHeading poseDelta) in
  let newTrajectory :=
    appendPosition (trajectoryRef s)
                   (mkPosition (pose_x newPose) (pose_y newPose)) in
  let updatedLandmarks :=
    LandmarkMap.updateMap (ids inp) (landmarksRef s) features newPose in
  mkState newPose newTrajectory updatedLandmarks
          (Some features) (Some (grayData inp)).

(** The states the pipeline can be in. *)
Inductive reachable : State -> Prop :=
| reach_init : reachable initialState
| reach_cycle : forall s inp,
    reachable s -> reachable (processSLAMFrame s inp)
| reach_reset : forall s, reachable s -> reachable (handleReset s).

End Pipeline.


(* ================================================================== *)
(** ** Overlay of a cycle: which features [processSLAMFrame] draws *)
(* ================================================================== *)

Module Overlay.

(** [Math.max(1, Math.floor(features.length / 800))] *)
Definition renderStep (features : list Feature) : Z :=
  Z.max 1 (Z.of_nat (length features) / 800).

(** The features visited by
    [for (let idx = 0; idx < features.length; idx += renderStep)], each
    of which gets a marker at its pixel. *)
Definition renderedFeatures (features : list Feature) : list Feature :=
  flat_map
    (fun idx =>
       match nth_error features (Z.to_nat idx) with
       | Some feat => [feat]
       | None => []
       end)
    (Js.forRange 0 (Z.of_nat (length features)) (renderStep features)).

End Overlay.

(* ================================================================== *)
(** ** Trajectory view: [drawTrajectory] *)
(* ================================================================== *)

Module TrajectoryView.

Import Pipeline.

Definition padding : R := 20.

(** [if (v < min) min = v] with [min] starting at [Infinity]; [None] is
    the starting value. *)
Definition lower (m : option R) (v : R) : option R :=
  match m with
  | None => Some v
  | Some r => if Rlt_dec v r then Some v else Some r
  end.

(** [if (v > max) max = v] with [max] starting at [-Infinity]. *)
Definition upper (m : option R) (v : R) : option R :=
  match m with
  | None => Some v
  | Some r => if Rgt_dec v r then Some v else Some r
  end.

Record Bounds := mkBounds {
  minX : option R; maxX : option R; minY : option R; maxY : option R
}.

(** The body of the first [traj.forEach]. *)
Definition widen (b : Bounds) (p : Position) : Bounds :=
  mkBounds (lower (minX b) (pos_x p)) (upper (maxX b) (pos_x p))
           (lower (minY b) (pos_y p)) (upper (maxY b) (pos_y p)).

Definition boundsOf (traj : list Position) : Bounds :=
  fold_left widen traj (mkBounds None None None None).

(** The value of a bound once the trajectory has been scanned (the
    scanned trajectory has at least two points). *)
Definition settled (m : option R) : R :=
  match m with Some r => r | None => 0%R end.

(** The placement used for every point drawn. *)
Record Placement := mkPlacement {
  originX : R; originY : R; rangeX : R; rangeY : R;
  canvasWidth : R; canvasHeight : R
}.

Definition placementOf (width height : Z) (traj : list Position)
    : Placement :=
  let b := boundsOf traj in
  mkPlacement (settled (minX b)) (settled (minY b))
              (Rmax (settled (maxX b) - settled (minX b)) 1)
              (Rmax (settled (maxY b) - settled (minY b)) 1)
              (IZR width) (IZR height).

Definition canvasX (pl : Placement) (x : R) : R :=
  (padding + ((x - originX pl) / rangeX pl)
             * (canvasWidth pl - 2 * padding))%R.

Definition canvasY (pl : Placement) (y : R) : R :=
  (canvasHeight pl - padding
   - ((y - originY pl) / rangeY pl) * (canvasHeight pl - 2 * padding))%R.

Inductive PathCmd :=
| MoveTo (x y : R)
| LineTo (x y : R).

(** What is drawn over the background and the grid. *)
Record Drawing := mkDrawing {
  path : list PathCmd;
  startMark : R * R;
  currentMark : R * R;
  landmarkMarks : list (R * R)
}.

(** The second [traj.forEach]: [moveTo] for the first point, [lineTo]
    for the others. *)
Definition pathOf (pl : Placement) (traj : list Position) : list PathCmd :=
  match traj with
  | [] => []
  | p :: rest =>
      MoveTo (canvasX pl (pos_x p)) (canvasY pl (pos_y p))
      :: map (fun q => LineTo (canvasX pl (pos_x q)) (canvasY pl (pos_y q)))
             rest
  end.

(** [None] when the function returns before drawing the trajectory
    ([traj.length < 2]). *)
Definition drawTrajectory (width height : Z) (traj : list Position)
    (landmarks : list Landmark) : option Drawing :=
  if (length traj <? 2)%nat then None
  else
    let pl := placementOf width height traj in
    let start := hd (mkPosition 0 0) traj in
    let curr := last traj (mkPosition 0 0) in
    Some (mkDrawing
            (pathOf pl traj)
            (canvasX pl (pos_x start), canvasY pl (pos_y start))
            (canvasX pl (pos_x curr), canvasY pl (pos_y curr))
            (map (fun lm => (canvasX pl (lm_x lm) - 1,
                             canvasY pl (lm_y lm) - 1)%R)
                 landmarks)).

End TrajectoryView.

(* ================================================================== *)
(** ** GPS path: the updater passed to [setGpsPath] *)
(* ================================================================== *)

Module Gps.

Record GpsPoint := mkGpsPoint {
  latitude : Q;
  longitude : Q;
  accuracy : Q;
  timestamp : Z
}.

(** [last.latitude === newPoint.latitude
     && last.longitude === newPoint.longitude] *)
Definition samePlace (a b : GpsPoint) : bool :=
  Qeq_bool (latitude a) (latitude b)
  && Qeq_bool (longitude a) (longitude b).

(** [(prev) => ...] of the success callback. *)
Definition appendFix (prev : list GpsPoint) (newPoint : GpsPoint)
    : list GpsPoint :=
  match prev with
  | [] => [newPoint]
  | _ :: _ =>
      if samePlace (last prev newPoint) newPoint then prev
      else prev ++ [newPoint]
  end.

(** The path after a sequence of fixes, from the empty path. *)
Definition pathAfter (fixes : list GpsPoint) : list GpsPoint :=
  fold_left appendFix fixes [].

(** No two neighbours of the path are at the same place. *)
Fixpoint distinctNeighbours (path : list GpsPoint) : Prop :=
  match path with
  | a :: (b :: _) as rest => samePlace a b = false /\ distinctNeighbours rest
  | _ => True
  end.

End Gps.

(* ================================================================== *)
(** ** Dead reckoning: [handleDeviceMotion] of DRModule.jsx *)
(* ================================================================== *)

Module DeadReckoning.

Record Vec2 := mkVec { vec_x : R; vec_y : R }.

(** [event.acceleration] ([None] when absent) with its [x] and [y]
    ([None] when null), and the time stamp of the event. *)
Record MotionEvent := mkMotion {
  acceleration : option (option R * option R);
  timeStamp : R
}.

(** The refs the handler reads and writes. *)
Record DrState := mkDr {
  velRef : Vec2;
  posRef : Vec2;
  pathRef : list Vec2;
  headingRef : R;
  lastTimestampRef : option R;
  stationaryCountRef : Z;
  accelBiasRef : Vec2
}.

Definition initialDr : DrState :=
  mkDr (mkVec 0 0) (mkVec 0 0) [mkVec 0 0] 0 None 0 (mkVec 0 0).

Definition stationaryThreshold : R := (12 / 100)%R.
Definition stationarySamplesRequired : Z := 6.
Definition deadzone : R := (5 / 100)%R.
Definition damping : R := 1.

(** [v || 0] *)
Definition orZero (v : option R) : R :=
  match v with Some r => r | None => 0%R end.

(** [Math.abs(a) > deadzone ? a : 0] *)
Definition beyondDeadzone (a : R) : R :=
  if Rgt_dec (Rabs a) deadzone then a else 0%R.

Definition handleDeviceMotion (st : DrState) (event : MotionEvent)
    : DrState :=
  match acceleration event with
  | None => st
  | Some (accX, accY) =>
      let now := timeStamp event in
      match lastTimestampRef st with
      | None =>
          mkDr (velRef st) (posRef st) (pathRef st) (headingRef st)
               (Some now) (stationaryCountRef st) (accelBiasRef st)
      | Some lastTimestamp =>
          let deltaTime := ((now - lastTimestamp) / 1000)%R in
          if Rle_dec deltaTime 0 then st
          else if Rlt_dec deltaTime (1 / 1000) then st
          else
            let axRaw := orZero accX in
            let ayRaw := orZero accY in
            let accMag2D := sqrt (axRaw * axRaw + ayRaw * ayRaw) in
            let stationaryCount :=
              if Rlt_dec accMag2D stationaryThreshold
              then stationaryCountRef st + 1 else 0 in
            if stationarySamplesRequired <=? stationaryCount then
              mkDr (mkVec 0 0) (posRef st) (pathRef st) (headingRef st)
                   (Some now) stationaryCount
                   (mkVec (vec_x (accelBiasRef st) * (8 / 10)
                           + axRaw * (2 / 10))
                          (vec_y (accelBiasRef st) * (8 / 10)
                           + ayRaw * (2 / 10)))
            else
              let axUnbiased := (axRaw - vec_x (accelBiasRef st))%R in
              let ayUnbiased := (ayRaw - vec_y (accelBiasRef st))%R in
              let ax := beyondDeadzone axUnbiased in
              let ay := beyondDeadzone ayUnbiased in
              let headingRad := (headingRef st * (PI / 180))%R in
              let worldAx := (ax * cos headingRad + ay * sin headingRad)%R in
              let worldAy :=
                (- ax * sin headingRad + ay * cos headingRad)%R in
              let newVelX :=
                ((vec_x (velRef st) + worldAx * deltaTime)
                 * exp (- damping * deltaTime))%R in
              let newVelY :=
                ((vec_y (velRef st) + worldAy * deltaTime)
                 * exp (- damping * deltaTime))%R in
              let newPosX := (vec_x (posRef st) + newVelX * deltaTime)%R in
              let newPosY := (vec_y (posRef st) + newVelY * deltaTime)%R in
              mkDr (mkVec newVelX newVelY) (mkVec newPosX newPosY)
                   (pathRef st ++ [mkVec newPosX newPosY]) (headingRef st)
                   (Some now) stationaryCount (accelBiasRef st)
      end
  end.

(** The heading ref follows the compass. *)
Definition setHeading (st : DrState) (heading : R) : DrState :=
  mkDr (velRef st) (posRef st) (pathRef st) heading
       (lastTimestampRef st) (stationaryCountRef st) (accelBiasRef st).

(** [stopMonitoring] and [startMonitoring] forget the last time stamp. *)
Definition restartMonitoring (st : DrState) : DrState :=
  mkDr (velRef st) (posRef st) (pathRef st) (headingRef st)
       None (stationaryCountRef st) (accelBiasRef st).

(** [clearPath], once the refs have followed the state it sets. *)
Definition clearPath (st : DrState) : DrState :=
  mkDr (mkVec 0 0) (mkVec 0 0) [mkVec 0 0] (headingRef st)
       None (stationaryCountRef st) (accelBiasRef st).

(** The states reached from the initial refs by motion events, heading
    changes, restarts and clearing the path. *)
Inductive reachableDr : DrState -> Prop :=
| dr_init : reachableDr initialDr
| dr_motion : forall st event,
    reachableDr st -> reachableDr (handleDeviceMotion st event)
| dr_heading : forall st heading,
    reachableDr st -> reachableDr (setHeading st heading)
| dr_restart : forall st,
    reachableDr st -> reachableDr (restartMonitoring st)
| dr_clear : forall st, reachableDr st -> reachableDr (clearPath st).

End DeadReckoning.

(* ================================================================== *)
(** ** Map view: the GPS track kept by PathVisualizer *)
(* ================================================================== *)

Module PathView.

(** A point of the track, [[latitude, longitude]]. *)
Definition LatLon : Type := R * R.

(** The distance in metres computed inside [prev.some]. *)
Definition metersBetween (point newPoint : LatLon) : R :=
  let dLat := ((fst point - fst newPoint) * 111320)%R in
  let dLon := ((snd point - snd newPoint) * 111320
               * cos (fst point * PI / 180))%R in
  sqrt (dLat * dLat + dLon * dLon).

Definition isDuplicate (prev : list LatLon) (newPoint : LatLon) : bool :=
  existsb (fun point =>
             if Rlt_dec (metersBetween point newPoint) (1 / 2)
             then true else false)
          prev.

(** The updater passed to [setGpsPathCoords]. *)
Definition recordFix (prev : list LatLon) (newPoint : LatLon) : list LatLon :=
  if isDuplicate prev newPoint then prev else prev ++ [newPoint].

(** The effect that follows [gpsLocation]: nothing is recorded when a
    path is supplied from outside or when there is no location. *)
Definition trackGps {A} (gpsPath : option (list A))
    (gpsLocation : option LatLon) (prev : list LatLon) : list LatLon :=
  match gpsPath with
  | Some (_ :: _) => prev
  | _ =>
      match gpsLocation with
      | None => prev
      | Some newPoint => recordFix prev newPoint
      end
  end.

Definition trackAfter (fixes : list LatLon) : list LatLon :=
  fold_left recordFix fixes [].

End PathView.

(* ================================================================== *)
(** ** Reference notions the properties are stated against *)
(* ================================================================== *)

Module Spec.

(** Rank of a value in a sample, without sorting it. *)
Definition countLt (m : Z) (l : list Z) : nat :=
  length (filter (fun v => v <? m) l).

Definition countLe (m : Z) (l : list Z) : nat :=
  length (filter (fun v => v <=? m) l).

(** [m] is the value of rank [k] (from 0) of [l] in ascending order. *)
Definition hasRank (k : nat) (m : Z) (l : list Z) : Prop :=
  In m l /\ (countLt m l <= k)%nat /\ (k < countLe m l)%nat.

(** The value of rank [k], found by counting. *)
Definition rankOf (k : nat) (l : list Z) : option Z :=
  find (fun m => (countLt m l <=? k)%nat && (k <? countLe m l)%nat) l.

(** The median of a sample: the middle value of an odd number of values,
    the mean of the two middle values of an even number. *)
Definition isMedian (v : R) (l : list Z) : Prop :=
  exists lo hi,
    hasRank (Nat.div (length l - 1) 2) lo l
    /\ hasRank (Nat.div (length l) 2) hi l
    /\ v = ((IZR lo + IZR hi) / 2)%R.

(** The per-axis displacements of the matches, current minus previous. *)
Definition dxs (matches : list Match) : list Z :=
  map (fun m => pt_x (curr m) - feat_x (prev m)) matches.

Definition dys (matches : list Match) : list Z :=
  map (fun m => pt_y (curr m) - feat_y (prev m)) matches.

(** The representative in (-PI, PI] of an angle in (-2 PI, 2 PI). *)
Definition normalize (a : R) : R :=
  if Rlt_dec PI a then (a - 2 * PI)%R
  else if Rle_dec a (- PI) then (a + 2 * PI)%R
  else a.

(** Signed angular difference of a match about the optical centre
    (320, 240). *)
Definition signedDifference (m : Match) : R :=
  normalize (Js.atan2 (pt_y (curr m) - 240) (pt_x (curr m) - 320)
             - Js.atan2 (feat_y (prev m) - 240) (feat_x (prev m) - 320)).

Definition withinBound (d : R) : bool :=
  if Rlt_dec (Rabs d) (1 / 2) then true else false.

Definition sumOf (l : list R) : R := fold_right Rplus 0%R l.

(** Arithmetic mean, zero for the empty list. *)
Definition meanOf (l : list R) : R :=
  match l with
  | [] => 0%R
  | _ => (sumOf l / INR (length l))%R
  end.

Definition headingOf (matches : list Match) : R :=
  meanOf (filter withinBound (map signedDifference matches)).

(** The pixel offset (x, y) rotated by the heading, scaled by the
    pixel-to-metric factor and added to the pose position. *)
Definition projectX (p : Pose) (feat : Feature) : R :=
  (pose_x p
   + (IZR (feat_x feat) * cos (heading p)
      - IZR (feat_y feat) * sin (heading p)) * (1 / 1000))%R.

Definition projectY (p : Pose) (feat : Feature) : R :=
  (pose_y p
   + (IZR (feat_x feat) * sin (heading p)
      + IZR (feat_y feat) * cos (heading p)) * (1 / 1000))%R.

End Spec.

(* ================================================================== *)
(** ** Invariants *)
(* ================================================================== *)

Module Inv.

(** What holds of every entry of [grid]: it was recorded at a sampled
    position, with the ring counts of that position. *)
Definition candidate (frame : ImageData) (r : Detector.RawFeature) : Prop :=
  In (Detector.raw_x r) (Js.forRange 10 (width frame - 10) 3)
  /\ In (Detector.raw_y r) (Js.forRange 10 (height frame - 10) 3)
  /\ Detector.ringCounts frame (Detector.raw_x r) (Detector.raw_y r)
     = (Detector.brighterCount r, Detector.darkerCount r)
  /\ Detector.raw_score r
     = Z.max (Detector.brighterCount r) (Detector.darkerCount r)
  /\ (12 <= Detector.brighterCount r \/ 12 <= Detector.darkerCount r).

(** The pixel (x, y) is at least [margin] pixels away from the four
    edges of the frame (columns 0 and width - 1, rows 0 and height - 1). *)
Definition insideBorder (margin : Z) (frame : ImageData) (x y : Z) : Prop :=
  margin <= x /\ margin <= width frame - 1 - x
  /\ margin <= y /\ margin <= height frame - 1 - y.

Definition qualityInRange (lm : Landmark) : Prop :=
  1 <= quality lm <= LandmarkMap.maxQuality.

End Inv.

(* ================================================================== *)
(** ** Concrete inputs used by the examples below *)
(* ================================================================== *)

Module Examples.

(** A previous feature at (px, py) matched at (px + ox, py + oy). *)
Definition matchAt (px py ox oy : Z) : Match :=
  mkMatch (mkFeature px py 16 obstacle None) (mkPoint (px + ox) (py + oy)) 0.

(** Six correspondences: three at rest, three moved by 10 pixels in x. *)
Definition evenMatches : list Match :=
  [ matchAt 100 100 0 0; matchAt 130 100 0 0; matchAt 160 100 0 0;
    matchAt 100 200 10 0; matchAt 130 200 10 0; matchAt 160 200 10 0 ].

(** A 640 x 480 grayscale frame, black except for white pixels at the
    given pixel indices (y * 640 + x); alpha is 255. *)
Definition dotFrame (dots : list Z) : ImageData :=
  mkImage 640 480
    (Js.mkArray (640 * 480 * 4)
       (fun i =>
          if Z.land i 3 =? 3 then 255
          else if existsb (Z.eqb (Z.shiftr i 2)) dots then 255 else 0)).

Definition dotsA : list (Z * Z) :=
  [ (100, 100); (220, 100); (340, 100); (100, 250); (220, 250) ].

(** The same five dots moved by one pixel in x and in y. *)
Definition dotsB : list (Z * Z) :=
  map (fun d => (fst d + 1, snd d + 1)) dotsA.

Definition pixelIndex (d : Z * Z) : Z := snd d * 640 + fst d.

Definition indicesA : list Z := Eval vm_compute in map pixelIndex dotsA.
Definition indicesB : list Z := Eval vm_compute in map pixelIndex dotsB.

Definition frameA : ImageData := dotFrame indicesA.
Definition frameB : ImageData := dotFrame indicesB.

Definition featuresA : list Feature :=
  map (fun d => mkFeature (fst d) (snd d) 16 obstacle None) dotsA.

Definition matchesAB : list Match :=
  map (fun d => mkMatch (mkFeature (fst d) (snd d) 16 obstacle None)
                        (mkPoint (fst d + 1) (snd d + 1)) 0) dotsA.

(** The corner candidates of [frameA]: each dot is darker on its whole
    ring. *)
Definition rawsA : list Detector.RawFeature :=
  map (fun d => Detector.mkRaw (fst d) (snd d) 16 0 16 None) dotsA.

(** An environment in which every identifier draw returns the same
    clock reading and the same random number. *)
Definition frozenIds : nat -> LandmarkMap.Entropy :=
  fun _ => LandmarkMap.mkEntropy 1700000000000 (1 / 2).

Definition inputsA : Pipeline.Inputs :=
  Pipeline.mkInputs frameA None (1 / 30) frozenIds.

Definition inputsB : Pipeline.Inputs :=
  Pipeline.mkInputs frameB None (1 / 30) frozenIds.

(** The state after one cycle on [frameA] from the initial state. *)
Definition afterA : Pipeline.State :=
  Pipeline.processSLAMFrame Pipeline.initialState inputsA.

Definition origin : Pose := mkPose 0 0 0.

(** Two features of one pixel column, and one of another column. *)
Definition featUpper : Feature := mkFeature 100 50 16 obstacle None.
Definition featLower : Feature := mkFeature 100 200 16 obstacle None.
Definition featRight : Feature := mkFeature 200 50 16 obstacle None.

(** 599 features, one per 6-pixel grid cell of the first rows. *)
Definition crowd : list Feature :=
  map (fun k => mkFeature (10 + 6 * (Z.of_nat k mod 100))
                          (10 + 6 * (Z.of_nat k / 100)) 16 obstacle None)
      (seq 0 599).

(** A 640 x 480 frame of uniform gray; alpha is 255. *)
Definition flatFrame : ImageData :=
  mkImage 640 480
    (Js.mkArray (640 * 480 * 4)
       (fun i => if Z.land i 3 =? 3 then 255 else 128)).

End Examples.

(* ================================================================== *)
(** * Properties *)
(* ================================================================== *)

(** ** Loops and sorting *)

Module JsFacts.

Lemma forRange_length (start stop step : Z) :
  length (Js.forRange start stop step)
  = Z.to_nat ((stop - start + step - 1) / step).
Proof.
  unfold Js.forRange. now rewrite length_map, length_seq.
Qed.

(** The loop variable stays within [start, stop) and moves by [step]. *)
Lemma forRange_In (start stop step v : Z) :
  0 < step ->
  In v (Js.forRange start stop step) ->
  start <= v < stop /\ (v - start) mod step = 0.
Proof.
  intros Hstep Hin. unfold Js.forRange in Hin.
  apply in_map_iff in Hin as [k [<- Hk]].
  apply in_seq in Hk.
  assert (Hcnt : Z.of_nat k < (stop - start + step - 1) / step) by lia.
  split.
  - split; [nia|].
    assert (step * (Z.of_nat k + 1) <= stop - start + step - 1).
    { transitivity (step * ((stop - start + step - 1) / step)).
      - apply Z.mul_le_mono_nonneg_l; lia.
      - apply Z.mul_div_le; lia. }
    lia.
  - replace (start + step * Z.of_nat k - start) with (Z.of_nat k * step) by ring.
    apply Z_mod_mult.
Qed.

(** Conversely, the loop reaches every such value. *)
Lemma forRange_complete (start stop step v : Z) :
  0 < step ->
  start <= v < stop -> (v - start) mod step = 0 ->
  In v (Js.forRange start stop step).
Proof.
  intros Hstep Hv Hmod. unfold Js.forRange.
  apply in_map_iff. exists (Z.to_nat ((v - start) / step)).
  assert (Hk : 0 <= (v - start) / step) by (apply Z.div_pos; lia).
  assert (Hdiv : v - start = step * ((v - start) / step)).
  { pose proof (Z.div_mod (v - start) step ltac:(lia)). lia. }
  split.
  - rewrite Z2Nat.id by exact Hk. lia.
  - apply in_seq. split; [lia|]. simpl.
    apply Z2Nat.inj_lt; [exact Hk| |].
    + apply Z.div_pos; lia.
    + assert (Hle : (v - start) / step + 1
                    <= (stop - start + step - 1) / step).
      { apply Z.div_le_lower_bound; [lia|]. nia. }
      lia.
Qed.

Section SortFacts.
Context {A : Type} (key : A -> Z).

Local Abbreviation cmp := (fun a b : A => key a - key b).
Local Abbreviation le := (fun a b : A => key a <= key b).

Lemma insert_perm (x : A) (l : list A) :
  Permutation (x :: l) (Js.insert cmp x l).
Proof.
  induction l as [|y l IH]; simpl; [reflexivity|].
  destruct (cmp x y <=? 0); [reflexivity|].
  rewrite perm_swap. now constructor.
Qed.

Lemma sort_perm (l : list A) : Permutation l (Js.sort cmp l).
Proof.
  induction l as [|x l IH]; simpl; [constructor|].
  rewrite <- insert_perm. now constructor.
Qed.

Lemma insert_sorted (x : A) (l : list A) :
  StronglySorted le l -> StronglySorted le (Js.insert cmp x l).
Proof.
  induction 1 as [|y l Hs IH Hall]; simpl.
  - repeat constructor.
  - destruct (Z.leb_spec (key x - key y) 0) as [Hc|Hc]; simpl in *.
    + constructor; [now constructor|].
      constructor; [lia|].
      eapply Forall_impl; [|exact Hall]. simpl; intros; lia.
    + constructor; [exact IH|].
      eapply Permutation_Forall; [apply insert_perm|].
      constructor; [lia|exact Hall].
Qed.

Lemma sort_sorted (l : list A) : StronglySorted le (Js.sort cmp l).
Proof.
  induction l; simpl; [constructor|now apply insert_sorted].
Qed.

Lemma sort_length (l : list A) : length (Js.sort cmp l) = length l.
Proof. symmetry. apply Permutation_length, sort_perm. Qed.

End SortFacts.

End JsFacts.

(** ** MotionEstimator: translation *)

Module EstimatorFacts.
Import Estimator.

Lemma filter_length_perm {A} (f : A -> bool) (l l' : list A) :
  Permutation l l' -> length (filter f l) = length (filter f l').
Proof.
  induction 1; simpl; try congruence.
  - destruct (f x); simpl; congruence.
  - destruct (f x), (f y); reflexivity.
Qed.

Lemma hasRank_perm (k : nat) (m : Z) (l l' : list Z) :
  Permutation l l' -> Spec.hasRank k m l -> Spec.hasRank k m l'.
Proof.
  intros HP (Hin & Hlt & Hle). unfold Spec.hasRank, Spec.countLt, Spec.countLe in *.
  rewrite <- (filter_length_perm _ _ _ HP), <- (filter_length_perm _ _ _ HP).
  split; [|now split]. eapply Permutation_in; eassumption.
Qed.

(** In an ascending list the element at index [k] has rank [k]. *)
Lemma sorted_nth_hasRank (s : list Z) :
  StronglySorted Z.le s ->
  forall k, (k < length s)%nat -> Spec.hasRank k (nth k s 0) s.
Proof.
  unfold Spec.hasRank, Spec.countLt, Spec.countLe.
  induction 1 as [|a s Hs IH Hall]; intros k Hk; simpl in Hk; [lia|].
  destruct k as [|k].
  - simpl. rewrite Z.ltb_irrefl, Z.leb_refl. simpl.
    split; [now left|]. split; [|lia].
    assert (Hnone : filter (fun v => v <? a) s = []).
    { clear -Hall. induction Hall as [|b s Hb _ IH]; simpl; [reflexivity|].
      destruct (Z.ltb_spec b a); [lia|exact IH]. }
    rewrite Hnone. simpl. lia.
  - specialize (IH k ltac:(lia)) as (Hin & Hlt & Hle).
    assert (Ha : a <= nth k s 0).
    { rewrite Forall_forall in Hall. now apply Hall. }
    cbn [nth filter]. split; [now right|].
    destruct (Z.leb_spec a (nth k s 0)); [|lia].
    destruct (a <? nth k s 0); simpl; lia.
Qed.

(** [rankOf] finds the value of the given rank. *)
Lemma rankOf_hasRank (k : nat) (m : Z) (l : list Z) :
  Spec.rankOf k l = Some m -> Spec.hasRank k m l.
Proof.
  unfold Spec.rankOf. intros H. apply find_some in H as [Hin Hb].
  apply andb_true_iff in Hb as [H1 H2].
  apply Nat.leb_le in H1. apply Nat.ltb_lt in H2.
  now repeat split.
Qed.

(** The rank determines the value. *)
Lemma hasRank_unique (k : nat) (a b : Z) (l : list Z) :
  Spec.hasRank k a l -> Spec.hasRank k b l -> a = b.
Proof.
  assert (Hmono : forall u v, u < v ->
            (Spec.countLe u l <= Spec.countLt v l)%nat).
  { intros u v Huv. unfold Spec.countLe, Spec.countLt.
    induction l as [|c l IH]; simpl; [lia|].
    destruct (Z.leb_spec c u), (Z.ltb_spec c v); simpl; lia. }
  intros (_ & Ha1 & Ha2) (_ & Hb1 & Hb2).
  destruct (Z.lt_trichotomy a b) as [H|[H|H]]; [|exact H|].
  - specialize (Hmono a b H). lia.
  - specialize (Hmono b a H). lia.
Qed.

Lemma sorted_map_key {A} (key : A -> Z) (l : list A) :
  StronglySorted (fun a b => key a <= key b) l ->
  StronglySorted Z.le (map key l).
Proof.
  induction 1 as [|a l Hs IH Hall]; simpl; constructor; [exact IH|].
  now apply Forall_map.
Qed.

(** The middle element of a sorted array has rank floor(n / 2) among
    the keys of any rearrangement of it. *)
Lemma middle_sorted_rank (key : Displacement -> Z) (l l0 : list Displacement) :
  key (mkDisp 0 0) = 0 ->
  l <> [] ->
  Permutation l0 l ->
  Spec.hasRank (Nat.div (length l0) 2)
               (key (middle (Js.sort (fun a b => key a - key b) l)))
               (map key l0).
Proof.
  intros Hd Hne HP.
  set (s := Js.sort (fun a b => key a - key b) l).
  assert (Hlen : length s = length l) by apply JsFacts.sort_length.
  assert (Hlen0 : length l0 = length l) by now apply Permutation_length.
  assert (Hpos : (0 < length l)%nat) by (destruct l; simpl; [congruence|lia]).
  apply hasRank_perm with (l := map key s).
  - apply Permutation_map. symmetry. etransitivity; [exact HP|].
    apply JsFacts.sort_perm.
  - unfold middle. fold s. rewrite <- map_nth, Hd.
    rewrite Hlen, Hlen0.
    apply sorted_nth_hasRank.
    + apply sorted_map_key, JsFacts.sort_sorted.
    + rewrite length_map, Hlen.
      apply Nat.div_lt; lia.
Qed.

Lemma displacements_dx (matches : list Match) :
  map disp_dx (displacementsOf matches) = Spec.dxs matches.
Proof. unfold displacementsOf, Spec.dxs. now rewrite map_map. Qed.

Lemma displacements_dy (matches : list Match) :
  map disp_dy (displacementsOf matches) = Spec.dys matches.
Proof. unfold displacementsOf, Spec.dys. now rewrite map_map. Qed.

(** The zero branch is taken exactly below five matches. *)
Lemma estimatePose_few (matches : list Match) :
  (length matches < 5)%nat -> estimatePose matches = zeroDelta.
Proof.
  intros H. unfold estimatePose.
  destruct (Z.ltb_spec (Z.of_nat (length matches)) 5); [reflexivity|lia].
Qed.

Lemma estimatePose_dx (matches : list Match) :
  (5 <= length matches)%nat ->
  dx (estimatePose matches)
  = (- IZR (disp_dx (middle (Js.sort byDx (displacementsOf matches))))
     * pixelToMeter)%R.
Proof.
  intros H. unfold estimatePose.
  destruct (Z.ltb_spec (Z.of_nat (length matches)) 5); [lia|].
  destruct (fold_left rotationStep matches (0%R, 0)). reflexivity.
Qed.

Lemma estimatePose_dy (matches : list Match) :
  (5 <= length matches)%nat ->
  dy (estimatePose matches)
  = (IZR (disp_dy (middle (Js.sort byDy
                             (Js.sort byDx (displacementsOf matches)))))
     * pixelToMeter)%R.
Proof.
  intros H. unfold estimatePose.
  destruct (Z.ltb_spec (Z.of_nat (length matches)) 5); [lia|].
  destruct (fold_left rotationStep matches (0%R, 0)). reflexivity.
Qed.

Lemma odd_rank_isMedian (m : Z) (l : list Z) :
  Nat.odd (length l) = true ->
  Spec.hasRank (Nat.div (length l) 2) m l ->
  Spec.isMedian (IZR m) l.
Proof.
  intros Hodd Hr. exists m, m. split; [|split; [exact Hr|lra]].
  replace (Nat.div (length l - 1) 2) with (Nat.div (length l) 2); [exact Hr|].
  apply Nat.odd_spec in Hodd. destruct Hodd as [q Hq]. rewrite Hq.
  replace (2 * q + 1 - 1)%nat with (q * 2)%nat by lia.
  rewrite Nat.div_mul by lia.
  replace (2 * q + 1)%nat with (1 + q * 2)%nat by lia.
  rewrite Nat.div_add by lia. reflexivity.
Qed.

(** C1 (as amended): with at least five correspondences the translation
    is, per axis, the displacement of rank floor(n / 2) in ascending
    order (the upper of the two middle values when n is even, the median
    itself when n is odd), times the pixel-to-metric factor, with the
    x-component negated. *)
Theorem estimatePose_translation_upper_median (matches : list Match) :
  (5 <= length matches)%nat ->
  exists mx my : Z,
    Spec.hasRank (Nat.div (length matches) 2) mx (Spec.dxs matches)
    /\ Spec.hasRank (Nat.div (length matches) 2) my (Spec.dys matches)
    /\ dx (estimatePose matches) = (- IZR mx * pixelToMeter)%R
    /\ dy (estimatePose matches) = (IZR my * pixelToMeter)%R
    /\ (Nat.odd (length matches) = true ->
        Spec.isMedian (IZR mx) (Spec.dxs matches)
        /\ Spec.isMedian (IZR my) (Spec.dys matches)).
Proof.
  intros Hlen.
  assert (Hne : displacementsOf matches <> []).
  { destruct matches; simpl in *; [lia|discriminate]. }
  assert (Hn : length (displacementsOf matches) = length matches).
  { unfold displacementsOf. apply length_map. }
  pose proof (middle_sorted_rank disp_dx _ _ eq_refl Hne
                (Permutation_refl _)) as Hx.
  assert (Hne' : Js.sort byDx (displacementsOf matches) <> []).
  { intros E. apply (f_equal (@length _)) in E.
    unfold byDx in E. rewrite JsFacts.sort_length in E.
    simpl in E. lia. }
  pose proof (middle_sorted_rank disp_dy _ (displacementsOf matches)
                eq_refl Hne' (JsFacts.sort_perm disp_dx _)) as Hy.
  rewrite displacements_dx, Hn in Hx. rewrite displacements_dy, Hn in Hy.
  eexists _, _. split; [exact Hx|]. split; [exact Hy|].
  split; [now apply estimatePose_dx|]. split; [now apply estimatePose_dy|].
  intros Hodd. split; apply odd_rank_isMedian; trivial.
  - unfold Spec.dxs. now rewrite length_map.
  - unfold Spec.dxs. now rewrite length_map.
  - unfold Spec.dys. now rewrite length_map.
  - unfold Spec.dys. now rewrite length_map.
Qed.

Lemma estimatePose_translation_upper_median_witness :
  (5 <= length Examples.evenMatches)%nat
  /\ exists mx my : Z,
      Spec.hasRank (Nat.div (length Examples.evenMatches) 2) mx
                   (Spec.dxs Examples.evenMatches)
      /\ Spec.hasRank (Nat.div (length Examples.evenMatches) 2) my
                      (Spec.dys Examples.evenMatches)
      /\ dx (estimatePose Examples.evenMatches) = (- IZR mx * pixelToMeter)%R
      /\ dy (estimatePose Examples.evenMatches) = (IZR my * pixelToMeter)%R
      /\ (Nat.odd (length Examples.evenMatches) = true ->
          Spec.isMedian (IZR mx) (Spec.dxs Examples.evenMatches)
          /\ Spec.isMedian (IZR my) (Spec.dys Examples.evenMatches)).
Proof.
  split.
  - simpl. lia.
  - apply (estimatePose_translation_upper_median Examples.evenMatches).
    simpl. lia.
Defined.

(** C1 as stated fails on an even number of correspondences: of six
    displacements 0, 0, 0, 10, 10, 10 in x the median is 5, and the
    estimator answers with 10. *)
Lemma estimatePose_even_count_not_median :
  (5 <= length Examples.evenMatches)%nat
  /\ Spec.isMedian 5 (Spec.dxs Examples.evenMatches)
  /\ dx (estimatePose Examples.evenMatches) = (- 10 * pixelToMeter)%R
  /\ dx (estimatePose Examples.evenMatches) <> (- 5 * pixelToMeter)%R.
Proof.
  assert (Hdx : dx (estimatePose Examples.evenMatches)
                = (- 10 * pixelToMeter)%R).
  { rewrite estimatePose_dx by (simpl; lia).
    replace (disp_dx (middle (Js.sort byDx
               (displacementsOf Examples.evenMatches)))) with 10
      by (vm_compute; reflexivity).
    reflexivity. }
  split; [simpl; lia|]. split; [|split; [exact Hdx|]].
  - exists 0, 10. split; [|split; [|lra]].
    + unfold Spec.hasRank, Spec.countLt, Spec.countLe. cbn.
      repeat split; lia.
    + unfold Spec.hasRank, Spec.countLt, Spec.countLe. cbn.
      repeat split; lia.
  - rewrite Hdx. unfold pixelToMeter. lra.
Qed.

(** ** MotionEstimator: rotation *)

Lemma atan2_range (y x : Z) : (- PI < Js.atan2 y x <= PI)%R.
Proof.
  pose proof PI_RGT_0 as Hpi.
  unfold Js.atan2.
  destruct (Z.ltb_spec 0 x) as [Hx|Hx].
  - pose proof (atan_bound (IZR y / IZR x)). lra.
  - destruct (Z.ltb_spec x 0) as [Hx'|Hx'].
    + assert (Hxr : (IZR x < 0)%R) by (apply IZR_lt; lia).
      assert (Hinv : (/ IZR x < 0)%R) by now apply Rinv_lt_0_compat.
      pose proof (atan_bound (IZR y / IZR x)) as Hb.
      destruct (Z.leb_spec 0 y) as [Hy|Hy].
      * assert (Hyr : (0 <= IZR y)%R) by (apply IZR_le; lia).
        assert (Ht : (IZR y / IZR x <= 0)%R).
        { unfold Rdiv. nra. }
        assert (Ha : (atan (IZR y / IZR x) <= 0)%R).
        { destruct Ht as [Ht|Ht].
          - left. rewrite <- atan_0. now apply atan_increasing.
          - rewrite Ht, atan_0. lra. }
        lra.
      * assert (Hyr : (IZR y < 0)%R) by (apply IZR_lt; lia).
        assert (Ht : (0 < IZR y / IZR x)%R).
        { unfold Rdiv. nra. }
        assert (Ha : (0 < atan (IZR y / IZR x))%R).
        { rewrite <- atan_0. now apply atan_increasing. }
        lra.
    + destruct (0 <? y); [lra|]. destruct (y <? 0); lra.
Qed.

Lemma normalize_range (a : R) :
  (- (2 * PI) < a < 2 * PI)%R -> (- PI < Spec.normalize a <= PI)%R.
Proof.
  intros Ha. unfold Spec.normalize.
  destruct (Rlt_dec PI a); [lra|].
  destruct (Rle_dec a (- PI)); lra.
Qed.

Lemma signedDifference_range (m : Match) :
  (- PI < Spec.signedDifference m <= PI)%R.
Proof.
  unfold Spec.signedDifference. apply normalize_range.
  pose proof (atan2_range (pt_y (curr m) - 240) (pt_x (curr m) - 320)).
  pose proof (atan2_range (feat_y (prev m) - 240) (feat_x (prev m) - 320)).
  lra.
Qed.

(** The two conditionals of the code and the normalisation to (-PI, PI]
    can only differ on a difference of exactly -PI, which the bound
    discards either way. *)
Lemma dAngleOf_agrees (m : Match) :
  Spec.withinBound (dAngleOf m) = Spec.withinBound (Spec.signedDifference m)
  /\ (Spec.withinBound (dAngleOf m) = true ->
      dAngleOf m = Spec.signedDifference m).
Proof.
  pose proof PI2_1 as Hpi.
  unfold dAngleOf, Spec.signedDifference, Spec.normalize, Spec.withinBound.
  set (a := (Js.atan2 (pt_y (curr m) - 240) (pt_x (curr m) - 320)
             - Js.atan2 (feat_y (prev m) - 240) (feat_x (prev m) - 320))%R).
  cbv zeta.
  destruct (Rlt_dec PI a) as [H1|H1].
  - destruct (Rlt_dec (a - 2 * PI) (- PI)); [lra|]. tauto.
  - destruct (Rlt_dec a (- PI)) as [H2|H2];
      destruct (Rle_dec a (- PI)) as [H3|H3]; try lra; try tauto.
    assert (Ha : a = (- PI)%R) by lra.
    rewrite Ha.
    destruct (Rlt_dec (Rabs (- PI)) (1 / 2)) as [H4|H4].
    + rewrite Rabs_Ropp, Rabs_pos_eq in H4; lra.
    + destruct (Rlt_dec (Rabs (- PI + 2 * PI)) (1 / 2)) as [H5|H5].
      * rewrite Rabs_pos_eq in H5; lra.
      * split; [reflexivity|discriminate].
Qed.

Lemma survivors_agree (matches : list Match) :
  filter Spec.withinBound (map dAngleOf matches)
  = filter Spec.withinBound (map Spec.signedDifference matches).
Proof.
  induction matches as [|m ms IH]; simpl; [reflexivity|].
  destruct (dAngleOf_agrees m) as [Hb He].
  rewrite <- Hb.
  destruct (Spec.withinBound (dAngleOf m)) eqn:E.
  - rewrite He, IH by reflexivity. reflexivity.
  - exact IH.
Qed.

Lemma rotationStep_withinBound (s : R) (c : Z) (m : Match) :
  rotationStep (s, c) m
  = if Spec.withinBound (dAngleOf m)
    then ((s + dAngleOf m)%R, c + 1) else (s, c).
Proof.
  unfold rotationStep, Spec.withinBound, maxRotation. cbv zeta.
  destruct (Rlt_dec (Rabs (dAngleOf m)) (1 / 2)); reflexivity.
Qed.

(** The rotation loop accumulates the sum and the number of the
    differences within the bound. *)
Lemma rotation_loop (matches : list Match) (s : R) (c : Z) :
  fold_left rotationStep matches (s, c)
  = ((s + Spec.sumOf (filter Spec.withinBound (map dAngleOf matches)))%R,
     c + Z.of_nat (length (filter Spec.withinBound (map dAngleOf matches)))).
Proof.
  revert s c. induction matches as [|m ms IH]; intros s c.
  - simpl. f_equal; [lra|lia].
  - cbn [fold_left map filter]. rewrite rotationStep_withinBound.
    destruct (Spec.withinBound (dAngleOf m)); rewrite IH; [|reflexivity].
    f_equal.
    + unfold Spec.sumOf. cbn [fold_right]. lra.
    + cbn [length]. lia.
Qed.

(** C4: with at least five correspondences the heading delta is the
    arithmetic mean of the signed angular differences about the optical
    centre, each normalised to (-PI, PI], that are smaller than 0.5 in
    magnitude, and zero when there is none. *)
Theorem estimatePose_heading_mean (matches : list Match) :
  (5 <= length matches)%nat ->
  dHeading (estimatePose matches) = Spec.headingOf matches
  /\ (forall m, In m matches ->
        (- PI < Spec.signedDifference m <= PI)%R)
  /\ (filter Spec.withinBound (map Spec.signedDifference matches) = [] ->
      dHeading (estimatePose matches) = 0%R).
Proof.
  intros Hlen.
  assert (Hmain : dHeading (estimatePose matches) = Spec.headingOf matches).
  { unfold estimatePose.
    destruct (Z.ltb_spec (Z.of_nat (length matches)) 5); [lia|].
    rewrite rotation_loop, survivors_agree. unfold Spec.headingOf.
    destruct (filter Spec.withinBound (map Spec.signedDifference matches))
      as [|d ds] eqn:E.
    - reflexivity.
    - cbn [dHeading]. unfold Spec.meanOf.
      destruct (Z.ltb_spec 0 (0 + Z.of_nat (length (d :: ds))));
        [|simpl length in *; lia].
      rewrite Z.add_0_l, <- INR_IZR_INZ. f_equal. lra. }
  split; [exact Hmain|]. split.
  - intros m _. apply signedDifference_range.
  - intros E. rewrite Hmain. unfold Spec.headingOf. now rewrite E.
Qed.

Lemma estimatePose_heading_mean_witness :
  (5 <= length Examples.evenMatches)%nat
  /\ dHeading (estimatePose Examples.evenMatches)
     = Spec.headingOf Examples.evenMatches.
Proof.
  split.
  - simpl. lia.
  - apply (estimatePose_heading_mean Examples.evenMatches). simpl. lia.
Defined.

End EstimatorFacts.

(** ** FeatureDetector *)

Module DetectorFacts.
Import Detector.

(** A loop keeps what every iteration keeps. *)
Lemma fold_left_invariant {A B} (P : A -> Prop) (f : A -> B -> A)
    (l : list B) (a : A) :
  (forall a' x, In x l -> P a' -> P (f a' x)) ->
  P a -> P (fold_left f l a).
Proof.
  revert a. induction l as [|x l IH]; intros a Hstep Ha; simpl; [exact Ha|].
  apply IH.
  - intros a' y Hy. apply Hstep. now right.
  - apply Hstep; [now left|exact Ha].
Qed.

(** No ring point is both brighter and darker than the centre. *)
Lemma ringStep_bound (frame : ImageData) (x y : Z) (c : option Z)
    (b d : Z) (off : Z * Z) :
  let r := ringStep frame x y c (b, d) off in
  b <= fst r /\ d <= snd r /\ fst r + snd r <= b + d + 1.
Proof.
  destruct off as [ox oy]. unfold ringStep. cbv zeta.
  set (i := Js.read (data frame) (((y + oy) * width frame + (x + ox)) * 4)).
  destruct i as [u|], c as [v|]; simpl; try lia.
  unfold threshold.
  destruct (Z.ltb_spec (v + 20) u), (Z.ltb_spec u (v - 20)); simpl; lia.
Qed.

Lemma ringLoop_bound (frame : ImageData) (x y : Z) (c : option Z)
    (offs : list (Z * Z)) (b d : Z) :
  let r := fold_left (ringStep frame x y c) offs (b, d) in
  b <= fst r /\ d <= snd r
  /\ fst r + snd r <= b + d + Z.of_nat (length offs).
Proof.
  revert b d. induction offs as [|off offs IH]; intros b d;
    cbn [fold_left length]; cbv zeta.
  - simpl. lia.
  - pose proof (ringStep_bound frame x y c b d off) as H. cbv zeta in H.
    destruct (ringStep frame x y c (b, d) off) as [b1 d1]. simpl in H.
    specialize (IH b1 d1). cbv zeta in IH. rewrite Nat2Z.inj_succ. lia.
Qed.

Lemma ringCounts_bound (frame : ImageData) (x y : Z) :
  0 <= fst (ringCounts frame x y)
  /\ 0 <= snd (ringCounts frame x y)
  /\ fst (ringCounts frame x y) + snd (ringCounts frame x y) <= 16.
Proof.
  unfold ringCounts. cbv zeta.
  pose proof (ringLoop_bound frame x y
                (Js.read (data frame) ((y * width frame + x) * 4))
                circle 0 0) as H.
  cbv zeta in H. simpl length in H. lia.
Qed.

Lemma gridSet_Forall (P : RawFeature -> Prop) (g : Grid) (k : Z * Z)
    (v : RawFeature) :
  Forall (fun kv => P (snd kv)) g -> P v ->
  Forall (fun kv => P (snd kv)) (gridSet g k v).
Proof.
  intros Hg Hv. induction Hg as [|[k' v'] g Hkv Hg IH]; simpl.
  - now repeat constructor.
  - destruct (keyEqb k k'); constructor; auto.
Qed.

Lemma visit_candidates (frame : ImageData) (depthData : option DepthData)
    (g : Grid) (x y : Z) :
  In x (Js.forRange 10 (width frame - 10) 3) ->
  In y (Js.forRange 10 (height frame - 10) 3) ->
  Forall (fun kv => Inv.candidate frame (snd kv)) g ->
  Forall (fun kv => Inv.candidate frame (snd kv)) (visit frame depthData y g x).
Proof.
  intros Hx Hy Hg. unfold visit.
  destruct (ringCounts frame x y) as [b d] eqn:Ering.
  destruct ((12 <=? b) || (12 <=? d)) eqn:Ecorner; [|exact Hg].
  assert (Hnew : Inv.candidate frame
            (mkRaw x y (Z.max b d) b d
                   (depthAt depthData (y * width frame + x)))).
  { unfold Inv.candidate. simpl. repeat split; trivial.
    apply orb_true_iff in Ecorner. destruct Ecorner as [E|E];
      apply Z.leb_le in E; [now left|now right]. }
  destruct (gridGet g (x / gridSize, y / gridSize)) as [old|].
  - destruct (raw_score old <? Z.max b d); [|exact Hg].
    now apply gridSet_Forall.
  - now apply gridSet_Forall.
Qed.

Lemma scan_candidates (frame : ImageData) (depthData : option DepthData) :
  Forall (fun kv => Inv.candidate frame (snd kv)) (scan frame depthData).
Proof.
  unfold scan.
  apply fold_left_invariant; [|constructor].
  intros g y Hy Hg. unfold scanRow.
  apply fold_left_invariant; [|exact Hg].
  intros g' x Hx Hg'. now apply visit_candidates.
Qed.

Lemma rawFeatures_candidates (frame : ImageData)
    (depthData : option DepthData) (raw : RawFeature) :
  In raw (rawFeaturesOf frame depthData) -> Inv.candidate frame raw.
Proof.
  unfold rawFeaturesOf. intros Hin.
  apply in_map_iff in Hin as [[k v] [<- Hin]].
  pose proof (scan_candidates frame depthData) as H.
  rewrite Forall_forall in H. exact (H _ Hin).
Qed.

Lemma candidate_counts (frame : ImageData) (raw : RawFeature) :
  Inv.candidate frame raw ->
  0 <= brighterCount raw /\ 0 <= darkerCount raw
  /\ brighterCount raw + darkerCount raw <= 16.
Proof.
  intros (_ & _ & Hring & _).
  pose proof (ringCounts_bound frame (raw_x raw) (raw_y raw)) as H.
  rewrite Hring in H. exact H.
Qed.

Lemma candidate_not_highContrast (frame : ImageData) (raw : RawFeature) :
  Inv.candidate frame raw -> highContrastRule raw = false.
Proof.
  intros Hc. pose proof (candidate_counts frame raw Hc) as Hb.
  destruct Hc as (_ & _ & _ & Hscore & _).
  unfold highContrastRule. rewrite Hscore.
  apply andb_false_iff.
  destruct (Z.leb_spec 15 (Z.max (brighterCount raw) (darkerCount raw)));
    [right|now left].
  apply Z.leb_gt. lia.
Qed.

(** C10: every corner candidate has brighterCount + darkerCount <= 16,
    so the rule "score >= 15 and |brighterCount - darkerCount| <= 2"
    holds of no candidate and never makes a feature an obstacle: the
    classification is the disjunction of the other rules. *)
Theorem highContrastRule_never_fires (frame : ImageData)
    (depthData : option DepthData) (raw : RawFeature) :
  In raw (rawFeaturesOf frame depthData) ->
  brighterCount raw + darkerCount raw <= 16
  /\ highContrastRule raw = false
  /\ forall (st : Stats) (clusterMap : ClusterMap),
       isObstacle frame st clusterMap raw
       = let clusterDensity :=
           Z.of_nat (length (clusterGet clusterMap (clusterKey raw))) in
         depthRule raw clusterDensity
         || denseClusterRule st clusterDensity
         || centerRule frame st raw clusterDensity
         || strongCornerRule raw
         || anomalyRule st clusterDensity.
Proof.
  intros Hin. apply rawFeatures_candidates in Hin.
  pose proof (candidate_not_highContrast frame raw Hin) as Hrule.
  split; [apply (candidate_counts frame raw Hin)|].
  split; [exact Hrule|].
  intros st clusterMap. unfold isObstacle. cbv zeta.
  rewrite Hrule, orb_false_r. reflexivity.
Qed.

Lemma firstn_In {A} (n : nat) (l : list A) (x : A) :
  In x (firstn n l) -> In x l.
Proof.
  intros H. rewrite <- (firstn_skipn n l). apply in_or_app. now left.
Qed.

(** C6: every returned feature lies at least 10 pixels inside every
    edge of the frame, and at most 1500 features are returned. *)
Theorem extractFeatures_border_and_cap (frame : ImageData)
    (depthData : option DepthData) (f : Feature) :
  In f (extractFeatures frame depthData) ->
  Inv.insideBorder 10 frame (feat_x f) (feat_y f)
  /\ (length (extractFeatures frame depthData) <= 1500)%nat.
Proof.
  intros Hin. split.
  - unfold extractFeatures in Hin. cbv zeta in Hin.
    apply firstn_In in Hin.
    apply in_map_iff in Hin as [raw [<- Hin]].
    apply filter_In in Hin as [Hin _].
    apply rawFeatures_candidates in Hin.
    destruct Hin as (Hx & Hy & _).
    apply JsFacts.forRange_In in Hx; [|lia].
    apply JsFacts.forRange_In in Hy; [|lia].
    unfold Inv.insideBorder. simpl. lia.
  - unfold extractFeatures. cbv zeta. apply firstn_le_length.
Qed.

Lemma rawFeatures_frameA :
  rawFeaturesOf Examples.frameA None = Examples.rawsA.
Proof. vm_cast_no_check (eq_refl Examples.rawsA). Qed.

Lemma extractFeatures_frameA :
  extractFeatures Examples.frameA None = Examples.featuresA.
Proof.
  unfold extractFeatures. cbv zeta. rewrite rawFeatures_frameA.
  vm_compute. reflexivity.
Qed.

Lemma highContrastRule_never_fires_witness :
  In (mkRaw 100 100 16 0 16 None) (rawFeaturesOf Examples.frameA None)
  /\ 0 + 16 <= 16
  /\ highContrastRule (mkRaw 100 100 16 0 16 None) = false.
Proof.
  assert (Hin : In (mkRaw 100 100 16 0 16 None)
                   (rawFeaturesOf Examples.frameA None)).
  { rewrite rawFeatures_frameA. simpl. now left. }
  split; [exact Hin|].
  pose proof (highContrastRule_never_fires Examples.frameA None _ Hin) as H.
  split; apply H.
Defined.

Lemma extractFeatures_border_and_cap_witness :
  In (mkFeature 100 100 16 obstacle None)
     (extractFeatures Examples.frameA None)
  /\ Inv.insideBorder 10 Examples.frameA 100 100
  /\ (length (extractFeatures Examples.frameA None) <= 1500)%nat.
Proof.
  assert (Hin : In (mkFeature 100 100 16 obstacle None)
                   (extractFeatures Examples.frameA None)).
  { rewrite extractFeatures_frameA. simpl. now left. }
  split; [exact Hin|].
  exact (extractFeatures_border_and_cap Examples.frameA None _ Hin).
Defined.

End DetectorFacts.

(** ** FeatureTracker *)

Module TrackerFacts.
Import Tracker.

Lemma trackOne_length (prevFrame currFrame : ImageData) (prevFeat : Feature) :
  (length (trackOne prevFrame currFrame prevFeat) <= 1)%nat.
Proof.
  unfold trackOne. cbv zeta.
  destruct (searchWindow _ _ _) as [[p sc]|]; simpl; [|lia].
  destruct (sc <? acceptBelow); simpl; lia.
Qed.

Lemma flat_map_at_most_one {A B} (f : A -> list B) (l : list A) :
  (forall a, (length (f a) <= 1)%nat) ->
  (length (flat_map f l) <= length l)%nat.
Proof.
  intros Hf. induction l as [|a l IH]; simpl; [lia|].
  rewrite length_app. specialize (Hf a). lia.
Qed.

Lemma sampleStep_pos (prevFeatures : list Feature) :
  1 <= sampleStep prevFeatures.
Proof. unfold sampleStep. lia. Qed.

(** The number of loop iterations is ceil(n / sampleStep). *)
Lemma sampleIndices_length (prevFeatures : list Feature) :
  Z.of_nat (length (sampleIndices prevFeatures))
  = (Z.of_nat (length prevFeatures) + sampleStep prevFeatures - 1)
    / sampleStep prevFeatures.
Proof.
  unfold sampleIndices. rewrite JsFacts.forRange_length.
  pose proof (sampleStep_pos prevFeatures) as Hs.
  rewrite Z2Nat.id.
  - f_equal. lia.
  - apply Z.div_pos; lia.
Qed.

(** C5 (as amended): the tracker visits the indices 0, s, 2s, ... below
    n with s = max(1, floor(n / 300)); it attempts ceil(n / s) features,
    which is at most 599 and at most n, and produces at most one
    correspondence for each. *)
Theorem trackFeatures_sample_bound (prevFrame currFrame : ImageData)
    (prevFeatures : list Feature) :
  Z.of_nat (length (sampleIndices prevFeatures))
  = (Z.of_nat (length prevFeatures) + sampleStep prevFeatures - 1)
    / sampleStep prevFeatures
  /\ (length (sampleIndices prevFeatures) <= 599)%nat
  /\ (length (sampleIndices prevFeatures) <= length prevFeatures)%nat
  /\ (length (trackFeatures prevFrame currFrame prevFeatures)
      <= length (sampleIndices prevFeatures))%nat.
Proof.
  pose proof (sampleIndices_length prevFeatures) as Hlen.
  pose proof (sampleStep_pos prevFeatures) as Hs.
  set (n := Z.of_nat (length prevFeatures)) in *.
  set (s := sampleStep prevFeatures) in *.
  assert (Hn : 0 <= n) by (subst n; lia).
  split; [exact Hlen|]. split; [|split].
  - assert (Hq : (n + s - 1) / s < 600).
    { apply Z.div_lt_upper_bound; [lia|].
      subst s. unfold sampleStep. fold n.
      pose proof (Z.mul_div_le n 300 ltac:(lia)).
      pose proof (Z.mod_pos_bound n 300 ltac:(lia)).
      pose proof (Z.div_mod n 300 ltac:(lia)).
      lia. }
    lia.
  - assert (Hq : (n + s - 1) / s <= n).
    { destruct (Z.eq_dec n 0) as [E|E].
      - rewrite E. rewrite Z.div_small; lia.
      - apply Z.lt_succ_r. apply Z.div_lt_upper_bound; [lia|]. nia. }
    lia.
  - unfold trackFeatures. apply flat_map_at_most_one.
    intros i. destruct (nth_error prevFeatures (Z.to_nat i)).
    + apply trackOne_length.
    + simpl. lia.
Qed.

(** C5 as stated fails: of 599 previous features the stride is 1 and all
    599 are sampled. *)
Lemma sampleIndices_exceeds_300 :
  length Examples.crowd = 599%nat
  /\ sampleStep Examples.crowd = 1
  /\ length (sampleIndices Examples.crowd) = 599%nat
  /\ (300 < length (sampleIndices Examples.crowd))%nat.
Proof.
  assert (H : length (sampleIndices Examples.crowd) = 599%nat)
    by (vm_compute; reflexivity).
  repeat split; try (vm_compute; reflexivity).
  rewrite H. lia.
Qed.

End TrackerFacts.

(** ** LandmarkMap *)

Module LandmarkFacts.
Import LandmarkMap.

(** Every landmark of [lms] is still at its index in [lms'], with the
    same identifier and a quality that did not decrease. *)
Local Abbreviation keeps lms lms' :=
  (forall (i : nat) (lm : Landmark),
      nth_error lms i = Some lm ->
      exists lm', nth_error lms' i = Some lm'
                  /\ lm_id lm' = lm_id lm
                  /\ quality lm <= quality lm').

Lemma fuse_quality (lm : Landmark) (wx wy : R) :
  Inv.qualityInRange lm ->
  Inv.qualityInRange (fuse lm wx wy)
  /\ quality lm <= quality (fuse lm wx wy).
Proof.
  unfold Inv.qualityInRange, fuse, maxQuality. simpl. lia.
Qed.

Lemma matchExisting_keeps (wx wy : R) (lms lms' : list Landmark) :
  Forall Inv.qualityInRange lms ->
  matchExisting wx wy lms = Some lms' ->
  Forall Inv.qualityInRange lms' /\ keeps lms lms'
  /\ length lms' = length lms.
Proof.
  intros Hq. revert lms'.
  induction Hq as [|lm rest Hlm Hrest IH]; intros lms' Hm; simpl in Hm;
    [discriminate|].
  destruct (Rlt_dec _ _).
  - injection Hm as <-. destruct (fuse_quality lm wx wy Hlm) as [Hf Hle].
    split; [now constructor|]. split; [|reflexivity].
    intros [|i] l Hi; simpl in *.
    + injection Hi as <-. eexists; split; [reflexivity|]. split; trivial.
    + exists l. repeat split; trivial. lia.
  - destruct (matchExisting wx wy rest) as [rest'|]; [|discriminate].
    injection Hm as <-.
    destruct (IH rest' eq_refl) as (Hq' & Hk & Hlen).
    split; [now constructor|]. split; [|simpl; congruence].
    intros [|i] l Hi; simpl in *.
    + injection Hi as <-. exists lm. repeat split; trivial. lia.
    + now apply Hk.
Qed.

Lemma matchExisting_ids (wx wy : R) (lms lms' : list Landmark) :
  matchExisting wx wy lms = Some lms' ->
  map lm_id lms' = map lm_id lms.
Proof.
  revert lms'. induction lms as [|lm rest IH]; intros lms' Hm; simpl in Hm;
    [discriminate|].
  destruct (Rlt_dec _ _).
  - injection Hm as <-. reflexivity.
  - destruct (matchExisting wx wy rest) as [rest'|]; [|discriminate].
    injection Hm as <-. simpl. f_equal. now apply IH.
Qed.

Lemma observe_keeps (ids : nat -> Entropy) (p : Pose)
    (lms : list Landmark) (k : nat) (feat : Feature) :
  Forall Inv.qualityInRange lms ->
  Forall Inv.qualityInRange (fst (observe ids p (lms, k) feat))
  /\ keeps lms (fst (observe ids p (lms, k) feat)).
Proof.
  intros Hq. unfold observe. cbv zeta.
  destruct (matchExisting _ _ lms) as [fused|] eqn:Em.
  - destruct (matchExisting_keeps _ _ _ _ Hq Em) as (H1 & H2 & _).
    now split.
  - destruct (Z.of_nat (length lms) <? maxLandmarks); simpl.
    + split.
      * apply Forall_app. split; [exact Hq|].
        constructor; [|constructor].
        unfold Inv.qualityInRange, maxQuality. simpl. lia.
      * intros i lm Hi. exists lm. repeat split; [|lia].
        rewrite nth_error_app1; [exact Hi|].
        apply nth_error_Some. congruence.
    + split; [exact Hq|].
      intros i lm Hi. exists lm. repeat split; trivial. lia.
Qed.

Lemma updateLoop_keeps (ids : nat -> Entropy) (p : Pose)
    (features : list Feature) (lms : list Landmark) (k : nat) :
  Forall Inv.qualityInRange lms ->
  Forall Inv.qualityInRange
    (fst (fold_left (observe ids p) features (lms, k)))
  /\ keeps lms (fst (fold_left (observe ids p) features (lms, k))).
Proof.
  revert lms k. induction features as [|feat feats IH]; intros lms k Hq.
  - simpl. split; [exact Hq|].
    intros i lm Hi. exists lm. repeat split; trivial. lia.
  - cbn [fold_left].
    destruct (observe_keeps ids p lms k feat Hq) as [Hq1 Hk1].
    destruct (observe ids p (lms, k) feat) as [lms1 k1]. simpl in Hq1, Hk1.
    destruct (IH lms1 k1 Hq1) as [Hq2 Hk2].
    split; [exact Hq2|].
    intros i lm Hi.
    destruct (Hk1 i lm Hi) as (lm1 & Hi1 & Hid1 & Hle1).
    destruct (Hk2 i lm1 Hi1) as (lm2 & Hi2 & Hid2 & Hle2).
    exists lm2. repeat split; trivial; [congruence|lia].
Qed.

Lemma updateMap_keeps (ids : nat -> Entropy) (landmarks : list Landmark)
    (features : list Feature) (p : Pose) :
  Forall Inv.qualityInRange landmarks ->
  Forall Inv.qualityInRange (updateMap ids landmarks features p)
  /\ keeps landmarks (updateMap ids landmarks features p).
Proof. apply updateLoop_keeps. Qed.

(** A close observation raises the quality of the landmark it is fused
    into by one, up to the cap. *)
Lemma close_observation_raises (wx wy : R) (lm : Landmark)
    (rest : list Landmark) :
  (hypot (lm_x lm - wx) (lm_y lm - wy) < matchDistance)%R ->
  exists lm',
    matchExisting wx wy (lm :: rest) = Some (lm' :: rest)
    /\ quality lm' = Z.min (quality lm + 1) 10.
Proof.
  intros Hclose. simpl.
  destruct (Rlt_dec _ _); [|contradiction].
  eexists. split; reflexivity.
Qed.

(** *** Identifiers *)

Lemma observe_ids (ids : nat -> Entropy) (p : Pose)
    (lms : list Landmark) (k : nat) (feat : Feature) :
  let r := observe ids p (lms, k) feat in
  (k <= snd r)%nat
  /\ length (fst r) = (length lms + (snd r - k))%nat
  /\ map lm_id (fst r)
     = map lm_id lms
       ++ map (fun i => freshId (ids i)) (seq k (snd r - k)).
Proof.
  unfold observe. cbv zeta.
  destruct (matchExisting _ _ lms) as [fused|] eqn:Em.
  - simpl. rewrite Nat.sub_diag. simpl. rewrite app_nil_r.
    pose proof (matchExisting_ids _ _ _ _ Em) as Hids.
    split; [lia|]. split; [|exact Hids].
    rewrite <- (length_map lm_id fused), Hids, length_map. lia.
  - destruct (Z.of_nat (length lms) <? maxLandmarks); cbn [fst snd].
    + replace (S k - k)%nat with 1%nat by lia.
      rewrite length_app, map_app. simpl.
      split; [lia|]. split; [lia|reflexivity].
    + rewrite Nat.sub_diag. simpl. rewrite app_nil_r.
      split; [lia|]. split; [lia|reflexivity].
Qed.

Lemma updateLoop_ids (ids : nat -> Entropy) (p : Pose)
    (features : list Feature) (lms : list Landmark) (k : nat) :
  let r := fold_left (observe ids p) features (lms, k) in
  (k <= snd r)%nat
  /\ length (fst r) = (length lms + (snd r - k))%nat
  /\ map lm_id (fst r)
     = map lm_id lms
       ++ map (fun i => freshId (ids i)) (seq k (snd r - k)).
Proof.
  revert lms k. induction features as [|feat feats IH]; intros lms k;
    cbn [fold_left]; cbv zeta.
  - simpl. rewrite Nat.sub_diag. simpl. rewrite app_nil_r.
    split; [lia|]. split; [lia|reflexivity].
  - pose proof (observe_ids ids p lms k feat) as H1. cbv zeta in H1.
    destruct (observe ids p (lms, k) feat) as [lms1 k1].
    simpl in H1. destruct H1 as (Hk1 & Hl1 & Hm1).
    specialize (IH lms1 k1). cbv zeta in IH.
    destruct (fold_left (observe ids p) feats (lms1, k1)) as [lms2 k2].
    simpl in *. destruct IH as (Hk2 & Hl2 & Hm2).
    split; [lia|]. split; [lia|].
    rewrite Hm2, Hm1, <- app_assoc, <- map_app. do 2 f_equal.
    replace (k2 - k)%nat with ((k1 - k) + (k2 - k1))%nat by lia.
    rewrite seq_app. do 2 f_equal. lia.
Qed.

(** C9 (as amended): a landmark keeps its identifier for as long as it
    is in the map, and the n-th landmark inserted by an update receives
    the n-th value of [Date.now() + Math.random()] drawn during that
    update; no counter is involved, and the identifiers of the map are
    pairwise distinct exactly when the old identifiers and the drawn
    values are. *)
Theorem updateMap_identifiers (ids : nat -> Entropy)
    (landmarks : list Landmark) (features : list Feature) (p : Pose) :
  let updated := updateMap ids landmarks features p in
  let inserted := (length updated - length landmarks)%nat in
  (length landmarks <= length updated)%nat
  /\ map lm_id updated
     = map lm_id landmarks
       ++ map (fun n => freshId (ids n)) (seq 0 inserted)
  /\ (NoDup (map lm_id updated)
      <-> NoDup (map lm_id landmarks
                 ++ map (fun n => freshId (ids n)) (seq 0 inserted))).
Proof.
  cbv zeta. unfold updateMap.
  pose proof (updateLoop_ids ids p features landmarks 0) as H.
  cbv zeta in H. destruct H as (_ & Hlen & Hids).
  rewrite Nat.sub_0_r in Hlen, Hids.
  assert (Hn : (length (fst (fold_left (observe ids p) features
                                       (landmarks, 0%nat)))
                - length landmarks)%nat
               = snd (fold_left (observe ids p) features (landmarks, 0%nat)))
    by lia.
  rewrite Hn. split; [lia|]. split; [exact Hids|].
  rewrite Hids. reflexivity.
Qed.

(** *** Evaluation at the origin *)

Lemma hypot_lt (a b t : R) :
  (0 < t)%R -> (hypot a b < t <-> a * a + b * b < t * t)%R.
Proof.
  intros Ht. unfold hypot.
  assert (Hv : (0 <= a * a + b * b)%R) by nra.
  rewrite <- (sqrt_square t) at 1 by lra.
  split; intros H.
  - apply sqrt_lt_0_alt in H. exact H.
  - apply sqrt_lt_1_alt. lra.
Qed.

Lemma worldX_origin (feat : Feature) :
  worldX Examples.origin feat = (IZR (feat_x feat) / 1000)%R.
Proof. unfold worldX. simpl. rewrite cos_0. lra. Qed.

Lemma worldY_origin (feat : Feature) :
  worldY Examples.origin feat = 0%R.
Proof. unfold worldY. simpl. rewrite sin_0. lra. Qed.

Lemma observe_first (ids : nat -> Entropy) (p : Pose) (feat : Feature) :
  observe ids p ([], 0%nat) feat
  = ([mkLandmark (freshId (ids 0%nat)) (worldX p feat) (worldY p feat) 1],
     1%nat).
Proof. reflexivity. Qed.

(** Two features of the same pixel column are one landmark. *)
Lemma same_column_one_landmark (ids : nat -> Entropy) :
  updateMap ids [] [Examples.featUpper; Examples.featLower] Examples.origin
  = [fuse (mkLandmark (freshId (ids 0%nat)) (100 / 1000) 0 1)
          (100 / 1000) 0].
Proof.
  unfold updateMap. cbn [fold_left]. rewrite observe_first.
  unfold observe. cbv zeta.
  rewrite !worldX_origin, !worldY_origin. simpl feat_x.
  cbn [matchExisting lm_x lm_y].
  destruct (Rlt_dec _ _) as [_|Hn]; [reflexivity|].
  exfalso. apply Hn. apply hypot_lt; unfold matchDistance; lra.
Qed.

(** Two features of distinct columns are two landmarks. *)
Lemma distinct_columns_two_landmarks (ids : nat -> Entropy) :
  updateMap ids [] [Examples.featUpper; Examples.featRight] Examples.origin
  = [mkLandmark (freshId (ids 0%nat)) (100 / 1000) 0 1;
     mkLandmark (freshId (ids 1%nat)) (200 / 1000) 0 1].
Proof.
  unfold updateMap. cbn [fold_left]. rewrite observe_first.
  unfold observe. cbv zeta.
  rewrite !worldX_origin, !worldY_origin. simpl feat_x.
  cbn [matchExisting lm_x lm_y].
  destruct (Rlt_dec _ _) as [Hy|_].
  - exfalso. apply hypot_lt in Hy; unfold matchDistance in *; lra.
  - reflexivity.
Qed.

(** C9 as stated fails: when the clock and the random source repeat,
    two landmarks inserted by one update share their identifier. *)
Lemma updateMap_duplicate_identifier :
  map lm_id (updateMap Examples.frozenIds []
               [Examples.featUpper; Examples.featRight] Examples.origin)
  = [(IZR 1700000000000 + 1 / 2)%R; (IZR 1700000000000 + 1 / 2)%R]
  /\ ~ NoDup (map lm_id (updateMap Examples.frozenIds []
                [Examples.featUpper; Examples.featRight] Examples.origin)).
Proof.
  rewrite distinct_columns_two_landmarks. split; [reflexivity|].
  intros H. inversion H as [|x l Hnin _]; subst. apply Hnin. now left.
Qed.

(** C3 at a failing input: for the features (100, 50) and (100, 200)
    seen from the origin with heading 0, the code places both at world
    (0.1, 0) and merges them into one landmark, whereas the rotated and
    scaled pixel offsets are (0.1, 0.05) and (0.1, 0.2); the
    y-coordinate of a feature has no influence on its projection. *)
Theorem updateMap_projection_ignores_y :
  worldX Examples.origin Examples.featUpper = (1 / 10)%R
  /\ worldY Examples.origin Examples.featUpper = 0%R
  /\ Spec.projectX Examples.origin Examples.featUpper = (1 / 10)%R
  /\ Spec.projectY Examples.origin Examples.featUpper = (1 / 20)%R
  /\ worldY Examples.origin Examples.featUpper
     <> Spec.projectY Examples.origin Examples.featUpper
  /\ (forall (p : Pose) (x y y' s : Z) (t : FeatureType) (d : option Q),
         worldX p (mkFeature x y s t d) = worldX p (mkFeature x y' s t d)
         /\ worldY p (mkFeature x y s t d) = worldY p (mkFeature x y' s t d))
  /\ (forall ids,
         length (updateMap ids [] [Examples.featUpper; Examples.featLower]
                           Examples.origin) = 1%nat).
Proof.
  assert (Hpy : Spec.projectY Examples.origin Examples.featUpper
                = (1 / 20)%R).
  { unfold Spec.projectY. simpl. rewrite cos_0, sin_0. lra. }
  repeat split.
  - rewrite worldX_origin. simpl. lra.
  - apply worldY_origin.
  - unfold Spec.projectX. simpl. rewrite cos_0, sin_0. lra.
  - exact Hpy.
  - rewrite Hpy, worldY_origin. lra.
  - intros ids. now rewrite same_column_one_landmark.
Qed.

End LandmarkFacts.

(** ** OdometryPipeline *)

Module PipelineFacts.
Import Pipeline.

(** *** The correspondence-count gate of a cycle *)

Lemma cycleDelta_above (s : State) (inp : Inputs) :
  (5 < length (cycleMatches s inp))%nat ->
  cycleDelta s inp = Estimator.estimatePose (cycleMatches s inp).
Proof.
  intros H. unfold cycleDelta. cbv zeta.
  destruct (Z.ltb_spec 5 (Z.of_nat (length (cycleMatches s inp))));
    [reflexivity|lia].
Qed.

Lemma cycleDelta_upto (s : State) (inp : Inputs) :
  (length (cycleMatches s inp) <= 5)%nat ->
  cycleDelta s inp = Estimator.zeroDelta.
Proof.
  intros H. unfold cycleDelta. cbv zeta.
  destruct (Z.ltb_spec 5 (Z.of_nat (length (cycleMatches s inp))));
    [lia|reflexivity].
Qed.

Lemma trackFeatures_frameAB :
  Tracker.trackFeatures Examples.frameA Examples.frameB Examples.featuresA
  = Examples.matchesAB.
Proof. vm_cast_no_check (eq_refl Examples.matchesAB). Qed.

Lemma cycleMatches_afterA :
  cycleMatches Examples.afterA Examples.inputsB = Examples.matchesAB.
Proof.
  unfold cycleMatches, Examples.afterA, processSLAMFrame. cbv zeta.
  cbn [prevFrameRef prevFeaturesRef grayData depthData Examples.inputsA
       Examples.inputsB].
  rewrite DetectorFacts.extractFeatures_frameA.
  apply trackFeatures_frameAB.
Qed.

(** C2 at a failing input: the second cycle of a run on [frameA] then
    [frameB] tracks exactly five correspondences, each displaced by
    (1, 1); the estimator's delta for them is (-0.001, 0.001, _), yet
    the cycle integrates the zero delta and the pose does not move. *)
Theorem processSLAMFrame_five_matches_zero_delta :
  reachable Examples.afterA
  /\ cycleMatches Examples.afterA Examples.inputsB = Examples.matchesAB
  /\ length (cycleMatches Examples.afterA Examples.inputsB) = 5%nat
  /\ dx (Estimator.estimatePose Examples.matchesAB) = (- (1 / 1000))%R
  /\ dy (Estimator.estimatePose Examples.matchesAB) = (1 / 1000)%R
  /\ Estimator.estimatePose Examples.matchesAB <> Estimator.zeroDelta
  /\ cycleDelta Examples.afterA Examples.inputsB = Estimator.zeroDelta
  /\ poseRef (processSLAMFrame Examples.afterA Examples.inputsB)
     = poseRef Examples.afterA.
Proof.
  assert (Hdx : dx (Estimator.estimatePose Examples.matchesAB)
                = (- (1 / 1000))%R).
  { rewrite EstimatorFacts.estimatePose_dx by (simpl; lia).
    replace (Estimator.disp_dx _) with 1 by (vm_compute; reflexivity).
    unfold Estimator.pixelToMeter. lra. }
  assert (Hdy : dy (Estimator.estimatePose Examples.matchesAB)
                = (1 / 1000)%R).
  { rewrite EstimatorFacts.estimatePose_dy by (simpl; lia).
    replace (Estimator.disp_dy _) with 1 by (vm_compute; reflexivity).
    unfold Estimator.pixelToMeter. lra. }
  assert (Hzero : cycleDelta Examples.afterA Examples.inputsB
                  = Estimator.zeroDelta).
  { apply cycleDelta_upto. rewrite cycleMatches_afterA. simpl. lia. }
  split; [apply reach_cycle, reach_init|].
  split; [apply cycleMatches_afterA|].
  split; [now rewrite cycleMatches_afterA|].
  split; [exact Hdx|]. split; [exact Hdy|]. split; [|split; [exact Hzero|]].
  - intros E. rewrite E in Hdx. simpl in Hdx. lra.
  - unfold processSLAMFrame at 1. cbv zeta. cbn [poseRef].
    rewrite Hzero. simpl dx. simpl dy. simpl dHeading.
    destruct (poseRef Examples.afterA) as [px py h]. simpl.
    f_equal; lra.
Qed.

(** *** Landmark quality *)

Lemma reachable_quality (s : State) :
  reachable s -> Forall Inv.qualityInRange (landmarksRef s).
Proof.
  induction 1 as [|s inp Hr IH|s Hr IH]; simpl.
  - constructor.
  - now apply LandmarkFacts.updateMap_keeps.
  - constructor.
Qed.

(** C7: in every state of the pipeline each landmark's quality lies in
    [1, 10], and a cycle leaves every landmark in place with a quality
    that is at least what it was and at most the cap. *)
Theorem landmark_quality_bounded_monotone (s : State) :
  reachable s ->
  Forall (fun lm => 1 <= quality lm <= 10) (landmarksRef s)
  /\ forall (inp : Inputs) (i : nat) (lm : Landmark),
       nth_error (landmarksRef s) i = Some lm ->
       exists lm',
         nth_error (landmarksRef (processSLAMFrame s inp)) i = Some lm'
         /\ quality lm <= quality lm' <= 10.
Proof.
  intros Hr. pose proof (reachable_quality s Hr) as Hq.
  split; [exact Hq|].
  intros inp i lm Hi.
  pose proof (reachable_quality _ (reach_cycle s inp Hr)) as Hq'.
  unfold processSLAMFrame in *. cbv zeta in *. cbn [landmarksRef] in *.
  match goal with
  | |- context [LandmarkMap.updateMap ?ids ?lms ?fs ?p] =>
      destruct (LandmarkFacts.updateMap_keeps ids lms fs p Hq) as [_ Hk]
  end.
  destruct (Hk i lm Hi) as (lm' & Hi' & _ & Hle).
  exists lm'. split; [exact Hi'|]. split; [exact Hle|].
  rewrite Forall_forall in Hq'.
  apply (Hq' lm'). eapply nth_error_In; exact Hi'.
Qed.

Lemma landmark_quality_bounded_monotone_witness :
  reachable Examples.afterA
  /\ Forall (fun lm => 1 <= quality lm <= 10) (landmarksRef Examples.afterA).
Proof.
  assert (Hr : reachable Examples.afterA) by apply reach_cycle, reach_init.
  split; [exact Hr|].
  apply (landmark_quality_bounded_monotone Examples.afterA Hr).
Defined.

(** *** Reset *)

(** C8: after a reset the pose is (0, 0, 0), the trajectory is the
    single origin point, there is no landmark and no previous frame or
    features; the state is the initial one, so the next cycle is the
    first cycle: it runs no tracking and integrates the zero delta. *)
Theorem handleReset_restarts (s : State) (inp : Inputs) :
  poseRef (handleReset s) = mkPose 0 0 0
  /\ trajectoryRef (handleReset s) = [mkPosition 0 0]
  /\ landmarksRef (handleReset s) = []
  /\ length (landmarksRef (handleReset s)) = 0%nat
  /\ prevFrameRef (handleReset s) = None
  /\ prevFeaturesRef (handleReset s) = None
  /\ handleReset s = initialState
  /\ cycleMatches (handleReset s) inp = []
  /\ cycleDelta (handleReset s) inp = Estimator.zeroDelta
  /\ processSLAMFrame (handleReset s) inp = processSLAMFrame initialState inp
  /\ poseRef (processSLAMFrame (handleReset s) inp) = mkPose 0 0 0
  /\ trajectoryRef (processSLAMFrame (handleReset s) inp)
     = [mkPosition 0 0; mkPosition 0 0].
Proof.
  repeat split; try reflexivity.
  - unfold processSLAMFrame. cbv zeta. cbn [poseRef].
    unfold cycleDelta, cycleMatches. simpl. f_equal; lra.
  - unfold processSLAMFrame. cbv zeta. cbn [trajectoryRef poseRef].
    unfold cycleDelta, cycleMatches, appendPosition. simpl.
    do 2 f_equal. f_equal; lra.
Qed.

End PipelineFacts.

(** ** FeatureTracker: what a correspondence is *)

Module TrackerExtra.
Import Tracker.

Lemma ssdLoop_nonneg (pcs : list (Z * Z)) (acc : Z) :
  0 <= acc ->
  0 <= fold_left (fun ssd pc => ssd + (fst pc - snd pc) * (fst pc - snd pc))
                 pcs acc.
Proof.
  revert acc. induction pcs as [|pc pcs IH]; intros acc Hacc; simpl.
  - exact Hacc.
  - apply IH. pose proof (Z.square_nonneg (fst pc - snd pc)). lia.
Qed.

Lemma ssdOf_nonneg (prevDesc currDesc : list Z) :
  0 <= ssdOf prevDesc currDesc.
Proof. unfold ssdOf. apply ssdLoop_nonneg. lia. Qed.

Lemma forRange_unit_length (lo hi : Z) :
  lo <= hi -> length (Js.forRange lo hi 1) = Z.to_nat (hi - lo).
Proof.
  intros H. rewrite JsFacts.forRange_length. f_equal.
  rewrite Z.div_1_r. lia.
Qed.

(** A descriptor always has 7 x 7 entries, wherever the point lies. *)
Lemma computeDescriptor_length (frameData : ImageData) (x y : Z) :
  length (computeDescriptor frameData x y) = 49%nat.
Proof.
  unfold computeDescriptor. rewrite length_flat_map.
  erewrite map_ext; [|intros oy; apply length_map].
  rewrite map_const. unfold patchSize.
  rewrite forRange_unit_length by lia. reflexivity.
Qed.

(** The candidate at offset (ox, oy) from a previous feature. *)
Local Abbreviation candidateX prevFeat ox := (feat_x prevFeat + ox).
Local Abbreviation candidateY prevFeat oy := (feat_y prevFeat + oy).

Local Abbreviation inBorder currFrame x y :=
  (10 <= x < width currFrame - 10 /\ 10 <= y < height currFrame - 10).

Local Abbreviation costAt currFrame prevDesc x y :=
  (ssdOf prevDesc (computeDescriptor currFrame x y)).

(** What holds of (bestMatch, bestScore) throughout the search. *)
Local Abbreviation wellFound currFrame prevDesc prevFeat best :=
  (match best with
   | None => True
   | Some (p, sc) =>
       exists ox oy,
         In ox offsets /\ In oy offsets
         /\ p = mkPoint (candidateX prevFeat ox) (candidateY prevFeat oy)
         /\ inBorder currFrame (pt_x p) (pt_y p)
         /\ sc = costAt currFrame prevDesc (pt_x p) (pt_y p)
   end).

Local Abbreviation scoreAtMost best v :=
  (exists p sc, best = Some (p, sc) /\ sc <= v).

Lemma tryCandidate_wellFound (currFrame : ImageData) (prevDesc : list Z)
    (prevFeat : Feature) (oy ox : Z) (best : Best) :
  In ox offsets -> In oy offsets ->
  wellFound currFrame prevDesc prevFeat best ->
  wellFound currFrame prevDesc prevFeat
            (tryCandidate currFrame prevDesc prevFeat oy best ox).
Proof.
  intros Hox Hoy Hbest. unfold tryCandidate. cbv zeta.
  destruct (_ || _) eqn:Eout; [exact Hbest|].
  repeat (apply orb_false_iff in Eout as [Eout ?]).
  assert (Hin : inBorder currFrame (candidateX prevFeat ox)
                         (candidateY prevFeat oy)).
  { repeat match goal with
           | H : (_ <? _) = false |- _ => apply Z.ltb_ge in H
           | H : (_ <=? _) = false |- _ => apply Z.leb_gt in H
           end. lia. }
  assert (Hnew : wellFound currFrame prevDesc prevFeat
            (Some (mkPoint (candidateX prevFeat ox) (candidateY prevFeat oy),
                   costAt currFrame prevDesc (candidateX prevFeat ox)
                          (candidateY prevFeat oy)))).
  { exists ox, oy. simpl. repeat split; trivial; lia. }
  destruct best as [[p sc]|]; [|exact Hnew].
  destruct (_ <? sc); [exact Hnew|exact Hbest].
Qed.

(** The best score never goes up. *)
Lemma tryCandidate_keeps_bound (currFrame : ImageData) (prevDesc : list Z)
    (prevFeat : Feature) (oy ox : Z) (best : Best) (v : Z) :
  scoreAtMost best v ->
  scoreAtMost (tryCandidate currFrame prevDesc prevFeat oy best ox) v.
Proof.
  intros (p & sc & -> & Hle). unfold tryCandidate. cbv zeta.
  destruct (_ || _); [now exists p, sc|].
  destruct (Z.ltb_spec (costAt currFrame prevDesc (candidateX prevFeat ox)
                               (candidateY prevFeat oy)) sc).
  - eexists _, _. split; [reflexivity|lia].
  - now exists p, sc.
Qed.

(** A candidate inside the border is either taken or beaten. *)
Lemma tryCandidate_covers (currFrame : ImageData) (prevDesc : list Z)
    (prevFeat : Feature) (oy ox : Z) (best : Best) :
  inBorder currFrame (candidateX prevFeat ox) (candidateY prevFeat oy) ->
  scoreAtMost (tryCandidate currFrame prevDesc prevFeat oy best ox)
              (costAt currFrame prevDesc (candidateX prevFeat ox)
                      (candidateY prevFeat oy)).
Proof.
  intros Hin. unfold tryCandidate. cbv zeta.
  destruct (_ || _) eqn:Eout.
  - exfalso.
    repeat (apply orb_true_iff in Eout as [Eout|Eout]);
      first [apply Z.ltb_lt in Eout | apply Z.leb_le in Eout]; lia.
  - destruct best as [[p sc]|].
    + destruct (Z.ltb_spec (costAt currFrame prevDesc (candidateX prevFeat ox)
                                   (candidateY prevFeat oy)) sc).
      * eexists _, _. split; [reflexivity|lia].
      * exists p, sc. split; [reflexivity|lia].
    + eexists _, _. split; [reflexivity|lia].
Qed.

(** A loop of the search keeps a bound it has, and covers what it
    visits. *)
Lemma row_keeps_bound (currFrame : ImageData) (prevDesc : list Z)
    (prevFeat : Feature) (oy : Z) (oxs : list Z) (best : Best) (v : Z) :
  scoreAtMost best v ->
  scoreAtMost (fold_left (tryCandidate currFrame prevDesc prevFeat oy)
                         oxs best) v.
Proof.
  revert best. induction oxs as [|ox oxs IH]; intros best Hb; simpl.
  - exact Hb.
  - apply IH. now apply tryCandidate_keeps_bound.
Qed.

Lemma row_covers (currFrame : ImageData) (prevDesc : list Z)
    (prevFeat : Feature) (oy : Z) (oxs : list Z) (best : Best) (ox : Z) :
  In ox oxs ->
  inBorder currFrame (candidateX prevFeat ox) (candidateY prevFeat oy) ->
  scoreAtMost (fold_left (tryCandidate currFrame prevDesc prevFeat oy)
                         oxs best)
              (costAt currFrame prevDesc (candidateX prevFeat ox)
                      (candidateY prevFeat oy)).
Proof.
  revert best. induction oxs as [|ox' oxs IH]; intros best Hin Hb;
    simpl in *; [contradiction|].
  destruct Hin as [->|Hin].
  - apply row_keeps_bound. now apply tryCandidate_covers.
  - now apply IH.
Qed.

Lemma window_keeps_bound (currFrame : ImageData) (prevDesc : list Z)
    (prevFeat : Feature) (oxs oys : list Z) (best : Best) (v : Z) :
  scoreAtMost best v ->
  scoreAtMost
    (fold_left
       (fun b oy =>
          fold_left (tryCandidate currFrame prevDesc prevFeat oy) oxs b)
       oys best) v.
Proof.
  revert best. induction oys as [|oy oys IH]; intros best Hb;
    cbn [fold_left].
  - exact Hb.
  - apply IH. now apply row_keeps_bound.
Qed.

Lemma window_covers (currFrame : ImageData) (prevDesc : list Z)
    (prevFeat : Feature) (oxs oys : list Z) (best : Best) (ox oy : Z) :
  In oy oys -> In ox oxs ->
  inBorder currFrame (candidateX prevFeat ox) (candidateY prevFeat oy) ->
  scoreAtMost
    (fold_left
       (fun b oy' =>
          fold_left (tryCandidate currFrame prevDesc prevFeat oy') oxs b)
       oys best)
    (costAt currFrame prevDesc (candidateX prevFeat ox)
            (candidateY prevFeat oy)).
Proof.
  revert best. induction oys as [|oy' oys IH]; intros best Hoy Hox Hb;
    cbn [fold_left]; [destruct Hoy|].
  destruct Hoy as [->|Hoy].
  - apply window_keeps_bound. now apply row_covers.
  - now apply IH.
Qed.

Lemma searchWindow_wellFound (currFrame : ImageData) (prevDesc : list Z)
    (prevFeat : Feature) :
  wellFound currFrame prevDesc prevFeat
            (searchWindow currFrame prevDesc prevFeat).
Proof.
  unfold searchWindow.
  apply (DetectorFacts.fold_left_invariant
           (fun b => wellFound currFrame prevDesc prevFeat b)); [|exact I].
  intros b oy Hoy Hb.
  apply (DetectorFacts.fold_left_invariant
           (fun b => wellFound currFrame prevDesc prevFeat b)); [|exact Hb].
  intros b' ox Hox Hb'. now apply tryCandidate_wellFound.
Qed.

Lemma searchWindow_covers (currFrame : ImageData) (prevDesc : list Z)
    (prevFeat : Feature) (ox oy : Z) :
  In oy offsets -> In ox offsets ->
  inBorder currFrame (candidateX prevFeat ox) (candidateY prevFeat oy) ->
  scoreAtMost (searchWindow currFrame prevDesc prevFeat)
              (costAt currFrame prevDesc (candidateX prevFeat ox)
                      (candidateY prevFeat oy)).
Proof.
  intros Hoy Hox Hin. unfold searchWindow.
  apply (window_covers currFrame prevDesc prevFeat offsets offsets None
                       ox oy Hoy Hox Hin).
Qed.

(** The offsets of the search window: -20, -17, ..., 19; none is 0. *)
Lemma offsets_spec (o : Z) :
  In o offsets <-> -20 <= o <= 19 /\ (o + 20) mod 3 = 0.
Proof.
  unfold offsets, searchRadius. split.
  - intros H. apply JsFacts.forRange_In in H; [|lia].
    replace (o - -20) with (o + 20) in H by lia.
    destruct H as [Hr Hm]. split; [|exact Hm].
    assert (o <> 20).
    { intros ->. vm_compute in Hm. discriminate. }
    lia.
  - intros [Hr Hm]. apply JsFacts.forRange_complete; try lia.
    replace (o - -20) with (o + 20) by lia. exact Hm.
Qed.

Lemma offsets_nonzero (o : Z) : In o offsets -> o <> 0.
Proof.
  intros H. apply offsets_spec in H as [_ Hm]. intros ->.
  vm_compute in Hm. discriminate.
Qed.

Lemma trackFeatures_In (prevFrame currFrame : ImageData)
    (prevFeatures : list Feature) (m : Match) :
  In m (trackFeatures prevFrame currFrame prevFeatures) ->
  exists prevFeat,
    In prevFeat prevFeatures /\ In m (trackOne prevFrame currFrame prevFeat).
Proof.
  unfold trackFeatures. intros H. apply in_flat_map in H as [i [_ Hm]].
  destruct (nth_error prevFeatures (Z.to_nat i)) as [f|] eqn:E;
    [|contradiction].
  exists f. split; [eapply nth_error_In; exact E|exact Hm].
Qed.

Lemma trackOne_In (prevFrame currFrame : ImageData) (prevFeat : Feature)
    (m : Match) :
  In m (trackOne prevFrame currFrame prevFeat) ->
  prev m = prevFeat
  /\ match_score m < acceptBelow
  /\ searchWindow currFrame
       (computeDescriptor prevFrame (feat_x prevFeat) (feat_y prevFeat))
       prevFeat
     = Some (curr m, match_score m).
Proof.
  unfold trackOne. cbv zeta.
  destruct (searchWindow _ _ _) as [[p sc]|]; [|contradiction].
  destruct (Z.ltb_spec sc acceptBelow); [|contradiction].
  intros [<-|[]]. simpl. now repeat split.
Qed.

(** Where a correspondence comes from. *)
Lemma trackFeatures_found (prevFrame currFrame : ImageData)
    (prevFeatures : list Feature) (m : Match) :
  In m (trackFeatures prevFrame currFrame prevFeatures) ->
  exists ox oy,
    In ox offsets /\ In oy offsets
    /\ In (prev m) prevFeatures
    /\ curr m = mkPoint (feat_x (prev m) + ox) (feat_y (prev m) + oy)
    /\ inBorder currFrame (pt_x (curr m)) (pt_y (curr m))
    /\ match_score m
       = ssdOf (computeDescriptor prevFrame (feat_x (prev m))
                                  (feat_y (prev m)))
               (computeDescriptor currFrame (pt_x (curr m)) (pt_y (curr m)))
    /\ match_score m < acceptBelow.
Proof.
  intros Hm. apply trackFeatures_In in Hm as (f & Hf & Hm).
  apply trackOne_In in Hm as (Hprev & Hlt & Hs).
  pose proof (searchWindow_wellFound currFrame
                (computeDescriptor prevFrame (feat_x f) (feat_y f)) f) as Hw.
  rewrite Hs in Hw. destruct Hw as (ox & oy & Hox & Hoy & Hp & Hin & Hsc).
  exists ox, oy. rewrite Hprev.
  split; [exact Hox|]. split; [exact Hoy|]. split; [exact Hf|].
  split; [exact Hp|]. split; [exact Hin|]. split; [exact Hsc|exact Hlt].
Qed.

(** X1. Every correspondence pairs one of the previous features with a
    point of the current frame that lies inside the 10-pixel border, at
    an offset of the search window (-20, -17, ..., 19 on each axis); its
    score is the sum of squared differences of the two 7 x 7 patches,
    it is non-negative and below 3000. *)
Theorem trackFeatures_match_sound (prevFrame currFrame : ImageData)
    (prevFeatures : list Feature) (m : Match) :
  In m (trackFeatures prevFrame currFrame prevFeatures) ->
  In (prev m) prevFeatures
  /\ 10 <= pt_x (curr m) < width currFrame - 10
  /\ 10 <= pt_y (curr m) < height currFrame - 10
  /\ In (pt_x (curr m) - feat_x (prev m)) offsets
  /\ In (pt_y (curr m) - feat_y (prev m)) offsets
  /\ match_score m
     = ssdOf (computeDescriptor prevFrame (feat_x (prev m)) (feat_y (prev m)))
             (computeDescriptor currFrame (pt_x (curr m)) (pt_y (curr m)))
  /\ 0 <= match_score m < 3000.
Proof.
  intros Hm.
  destruct (trackFeatures_found _ _ _ _ Hm)
    as (ox & oy & Hox & Hoy & Hf & Hp & Hin & Hsc & Hlt).
  rewrite Hp in *. cbn [pt_x pt_y] in *.
  replace (feat_x (prev m) + ox - feat_x (prev m)) with ox by lia.
  replace (feat_y (prev m) + oy - feat_y (prev m)) with oy by lia.
  split; [exact Hf|]. split; [lia|]. split; [lia|].
  split; [exact Hox|]. split; [exact Hoy|]. split; [exact Hsc|].
  split; [rewrite Hsc; apply ssdOf_nonneg|exact Hlt].
Qed.

Lemma trackFeatures_match_sound_witness :
  In (mkMatch (mkFeature 100 100 16 obstacle None) (mkPoint 101 101) 0)
     (trackFeatures Examples.frameA Examples.frameB Examples.featuresA)
  /\ In (mkFeature 100 100 16 obstacle None) Examples.featuresA
  /\ 10 <= 101 < width Examples.frameB - 10.
Proof.
  assert (Hin : In (mkMatch (mkFeature 100 100 16 obstacle None)
                            (mkPoint 101 101) 0)
                   (trackFeatures Examples.frameA Examples.frameB
                                  Examples.featuresA)).
  { rewrite PipelineFacts.trackFeatures_frameAB. simpl. now left. }
  split; [exact Hin|].
  pose proof (trackFeatures_match_sound _ _ _ _ Hin) as H.
  split; apply H.
Defined.

(** X2. A correspondence never has a zero displacement: on each axis the
    current point differs from the previous one by at least 1 and at
    most 20 pixels, because the search offsets step by 3 from -20 and
    skip 0. *)
Theorem trackFeatures_never_at_rest (prevFrame currFrame : ImageData)
    (prevFeatures : list Feature) (m : Match) :
  In m (trackFeatures prevFrame currFrame prevFeatures) ->
  1 <= Z.abs (pt_x (curr m) - feat_x (prev m)) <= 20
  /\ 1 <= Z.abs (pt_y (curr m) - feat_y (prev m)) <= 20
  /\ curr m <> mkPoint (feat_x (prev m)) (feat_y (prev m)).
Proof.
  intros Hm.
  destruct (trackFeatures_found _ _ _ _ Hm)
    as (ox & oy & Hox & Hoy & _ & Hp & _).
  rewrite Hp. cbn [pt_x pt_y].
  pose proof (offsets_nonzero _ Hox). pose proof (offsets_nonzero _ Hoy).
  apply offsets_spec in Hox as [Hxr _]. apply offsets_spec in Hoy as [Hyr _].
  split; [lia|]. split; [lia|].
  intros E. injection E as Ex Ey. lia.
Qed.

Lemma trackFeatures_never_at_rest_witness :
  In (mkMatch (mkFeature 100 100 16 obstacle None) (mkPoint 101 101) 0)
     (trackFeatures Examples.frameA Examples.frameB Examples.featuresA)
  /\ 1 <= Z.abs (101 - 100) <= 20.
Proof.
  assert (Hin : In (mkMatch (mkFeature 100 100 16 obstacle None)
                            (mkPoint 101 101) 0)
                   (trackFeatures Examples.frameA Examples.frameB
                                  Examples.featuresA)).
  { rewrite PipelineFacts.trackFeatures_frameAB. simpl. now left. }
  split; [exact Hin|].
  apply (trackFeatures_never_at_rest _ _ _ _ Hin).
Defined.

(** X3. The point of a correspondence minimises the patch cost over the
    search window: no candidate of the window that lies inside the
    border of the current frame has a smaller sum of squared
    differences. *)
Theorem trackFeatures_match_minimal (prevFrame currFrame : ImageData)
    (prevFeatures : list Feature) (m : Match) (ox oy : Z) :
  In m (trackFeatures prevFrame currFrame prevFeatures) ->
  In ox offsets -> In oy offsets ->
  10 <= feat_x (prev m) + ox < width currFrame - 10 ->
  10 <= feat_y (prev m) + oy < height currFrame - 10 ->
  match_score m
  <= ssdOf (computeDescriptor prevFrame (feat_x (prev m)) (feat_y (prev m)))
           (computeDescriptor currFrame (feat_x (prev m) + ox)
                              (feat_y (prev m) + oy)).
Proof.
  intros Hm Hox Hoy Hx Hy.
  apply trackFeatures_In in Hm as (f & Hf & Hm).
  apply trackOne_In in Hm as (Hprev & Hlt & Hs).
  rewrite Hprev in *.
  destruct (searchWindow_covers currFrame
              (computeDescriptor prevFrame (feat_x f) (feat_y f))
              f ox oy Hoy Hox (conj Hx Hy)) as (p & sc & E & Hle).
  rewrite Hs in E. injection E as _ <-.
  exact Hle.
Qed.

Lemma trackFeatures_match_minimal_witness :
  In (mkMatch (mkFeature 100 100 16 obstacle None) (mkPoint 101 101) 0)
     (trackFeatures Examples.frameA Examples.frameB Examples.featuresA)
  /\ In 4 offsets /\ In (-2) offsets
  /\ 0 <= ssdOf (computeDescriptor Examples.frameA 100 100)
                (computeDescriptor Examples.frameB (100 + 4) (100 + -2)).
Proof.
  assert (Hin : In (mkMatch (mkFeature 100 100 16 obstacle None)
                            (mkPoint 101 101) 0)
                   (trackFeatures Examples.frameA Examples.frameB
                                  Examples.featuresA)).
  { rewrite PipelineFacts.trackFeatures_frameAB. simpl. now left. }
  assert (H4 : In 4 offsets) by (apply offsets_spec; split; [lia|reflexivity]).
  assert (H2 : In (-2) offsets)
    by (apply offsets_spec; split; [lia|reflexivity]).
  split; [exact Hin|]. split; [exact H4|]. split; [exact H2|].
  apply (trackFeatures_match_minimal _ _ _ _ 4 (-2) Hin H4 H2);
    simpl; lia.
Defined.

(** X4. Edge cases of the tracker: without previous features, or when
    the current frame is no wider or no higher than the two borders
    (20 pixels), no correspondence is produced. *)
Theorem trackFeatures_nothing_to_match (prevFrame currFrame : ImageData)
    (prevFeatures : list Feature) :
  prevFeatures = [] \/ width currFrame <= 20 \/ height currFrame <= 20 ->
  trackFeatures prevFrame currFrame prevFeatures = [].
Proof.
  intros H.
  destruct (trackFeatures prevFrame currFrame prevFeatures) as [|m ms] eqn:E;
    [reflexivity|].
  exfalso.
  assert (Hm : In m (trackFeatures prevFrame currFrame prevFeatures))
    by (rewrite E; now left).
  destruct (trackFeatures_found _ _ _ _ Hm)
    as (ox & oy & _ & _ & Hp & _ & Hin & _).
  destruct H as [->|[H|H]]; [contradiction|lia|lia].
Qed.

Lemma trackFeatures_nothing_to_match_witness :
  trackFeatures Examples.frameA (mkImage 20 480 (data Examples.frameA))
                Examples.featuresA = [].
Proof.
  apply (trackFeatures_nothing_to_match Examples.frameA
           (mkImage 20 480 (data Examples.frameA)) Examples.featuresA).
  right. left. simpl. lia.
Defined.

End TrackerExtra.

(** ** MotionEstimator: bounds and symmetry *)

Module EstimatorExtra.
Import Estimator.

Lemma withinBound_true (d : R) :
  Spec.withinBound d = true -> (- (1 / 2) < d < 1 / 2)%R.
Proof.
  unfold Spec.withinBound. destruct (Rlt_dec (Rabs d) (1 / 2)) as [H|H];
    [|discriminate].
  intros _. apply Rabs_def2 in H. lra.
Qed.

Lemma sumOf_bound (l : list R) :
  Forall (fun d => - (1 / 2) < d < 1 / 2)%R l ->
  (- (INR (length l) / 2) <= Spec.sumOf l <= INR (length l) / 2)%R
  /\ (l <> [] ->
      (- (INR (length l) / 2) < Spec.sumOf l < INR (length l) / 2)%R).
Proof.
  induction 1 as [|d l Hd Hl [IH _]].
  - simpl. split; [lra|congruence].
  - cbn [length]. rewrite S_INR. unfold Spec.sumOf in *. cbn [fold_right].
    split; [lra|]. intros _. lra.
Qed.

Lemma survivors_bounded (matches : list Match) :
  Forall (fun d => - (1 / 2) < d < 1 / 2)%R
         (filter Spec.withinBound (map dAngleOf matches)).
Proof.
  apply Forall_forall. intros d Hd. apply filter_In in Hd as [_ Hd].
  now apply withinBound_true.
Qed.

(** X5. Whatever the correspondences, the heading delta of the
    estimator is smaller than 0.5 in magnitude: it is a mean of angle
    differences that each passed the 0.5 bound, or zero. *)
Theorem estimatePose_heading_bounded (matches : list Match) :
  (Rabs (dHeading (estimatePose matches)) < 1 / 2)%R.
Proof.
  unfold estimatePose.
  destruct (Z.of_nat (length matches) <? 5).
  - simpl. rewrite Rabs_R0. lra.
  - rewrite EstimatorFacts.rotation_loop.
    pose proof (survivors_bounded matches) as Hall.
    destruct (filter Spec.withinBound (map dAngleOf matches)) as [|d l] eqn:E.
    + simpl. rewrite Rabs_R0. lra.
    + destruct (sumOf_bound (d :: l) Hall) as [_ Hs].
      specialize (Hs ltac:(discriminate)).
      cbn [dHeading].
      destruct (Z.ltb_spec 0 (0 + Z.of_nat (length (d :: l))));
        [|simpl length in *; lia].
      rewrite Z.add_0_l, <- INR_IZR_INZ.
      assert (Hn : (0 < INR (length (d :: l)))%R)
        by (apply lt_0_INR; simpl; lia).
      set (n := INR (length (d :: l))) in *.
      set (t := Spec.sumOf (d :: l)) in *.
      apply Rabs_def1.
      * apply Rmult_lt_reg_r with n; [exact Hn|].
        unfold Rdiv. rewrite Rmult_assoc, Rinv_l by lra. lra.
      * apply Rmult_lt_reg_r with n; [exact Hn|].
        unfold Rdiv. rewrite Rmult_assoc, Rinv_l by lra. lra.
Qed.

(** The translation comes from actual displacements. *)
Lemma estimatePose_dx_In (matches : list Match) :
  (5 <= length matches)%nat ->
  exists d, In d (Spec.dxs matches)
            /\ dx (estimatePose matches) = (- IZR d * pixelToMeter)%R.
Proof.
  intros Hlen.
  assert (Hne : displacementsOf matches <> [])
    by (destruct matches; simpl in *; [lia|discriminate]).
  pose proof (EstimatorFacts.middle_sorted_rank disp_dx _ _ eq_refl Hne
                (Permutation_refl _)) as [Hin _].
  rewrite EstimatorFacts.displacements_dx in Hin.
  eexists. split; [exact Hin|]. now apply EstimatorFacts.estimatePose_dx.
Qed.

Lemma sorted_nonempty (l : list Displacement) :
  l <> [] -> Js.sort byDx l <> [].
Proof.
  intros Hne E. apply (f_equal (@length _)) in E.
  unfold byDx in E. rewrite JsFacts.sort_length in E.
  destruct l; simpl in E; [congruence|lia].
Qed.

Lemma estimatePose_dy_In (matches : list Match) :
  (5 <= length matches)%nat ->
  exists d, In d (Spec.dys matches)
            /\ dy (estimatePose matches) = (IZR d * pixelToMeter)%R.
Proof.
  intros Hlen.
  assert (Hne : displacementsOf matches <> [])
    by (destruct matches; simpl in *; [lia|discriminate]).
  pose proof (EstimatorFacts.middle_sorted_rank disp_dy _
                (displacementsOf matches) eq_refl (sorted_nonempty _ Hne)
                (JsFacts.sort_perm disp_dx _)) as [Hin _].
  rewrite EstimatorFacts.displacements_dy in Hin.
  eexists. split; [exact Hin|]. now apply EstimatorFacts.estimatePose_dy.
Qed.

(** X6. The translation does not depend on the order in which the
    correspondences are listed. *)
Theorem estimatePose_translation_order_free (matches matches' : list Match) :
  Permutation matches matches' ->
  dx (estimatePose matches) = dx (estimatePose matches')
  /\ dy (estimatePose matches) = dy (estimatePose matches').
Proof.
  intros HP.
  pose proof (Permutation_length HP) as Hlen.
  destruct (Nat.lt_ge_cases (length matches) 5) as [Hfew|Hmany].
  - rewrite !EstimatorFacts.estimatePose_few by lia. now split.
  - assert (HPd : Permutation (displacementsOf matches)
                              (displacementsOf matches'))
      by (unfold displacementsOf; now apply Permutation_map).
    assert (Hne : displacementsOf matches <> [])
      by (destruct matches; simpl in *; [lia|discriminate]).
    assert (Hne' : displacementsOf matches' <> [])
      by (destruct matches'; simpl in *; [lia|discriminate]).
    split.
    + rewrite !EstimatorFacts.estimatePose_dx by lia. do 2 f_equal.
      f_equal.
      eapply EstimatorFacts.hasRank_unique.
      * apply (EstimatorFacts.middle_sorted_rank disp_dx _ _ eq_refl Hne
                 (Permutation_refl _)).
      * apply (EstimatorFacts.middle_sorted_rank disp_dx _ _ eq_refl Hne'
                 HPd).
    + rewrite !EstimatorFacts.estimatePose_dy by lia. do 2 f_equal.
      eapply EstimatorFacts.hasRank_unique.
      * apply (EstimatorFacts.middle_sorted_rank disp_dy _
                 (displacementsOf matches) eq_refl (sorted_nonempty _ Hne)
                 (JsFacts.sort_perm disp_dx _)).
      * apply (EstimatorFacts.middle_sorted_rank disp_dy _
                 (displacementsOf matches) eq_refl (sorted_nonempty _ Hne')).
        etransitivity; [exact HPd|]. apply (JsFacts.sort_perm disp_dx).
Qed.

Lemma estimatePose_translation_order_free_witness :
  Permutation Examples.evenMatches (rev Examples.evenMatches)
  /\ dx (estimatePose Examples.evenMatches)
     = dx (estimatePose (rev Examples.evenMatches)).
Proof.
  split.
  - apply Permutation_rev.
  - apply (estimatePose_translation_order_free Examples.evenMatches
             (rev Examples.evenMatches)).
    apply Permutation_rev.
Defined.

End EstimatorExtra.

(** ** LandmarkMap: capacity and data association *)

Module LandmarkExtra.
Import LandmarkMap.

Lemma matchExisting_length (wx wy : R) (lms lms' : list Landmark) :
  matchExisting wx wy lms = Some lms' -> length lms' = length lms.
Proof.
  intros H. apply LandmarkFacts.matchExisting_ids in H.
  apply (f_equal (@length _)) in H. now rewrite !length_map in H.
Qed.

Lemma observe_length (ids : nat -> Entropy) (p : Pose)
    (lms : list Landmark) (k : nat) (feat : Feature) :
  let r := fst (observe ids p (lms, k) feat) in
  (length lms <= length r <= length lms + 1)%nat
  /\ (length r <= Nat.max (length lms) 500)%nat.
Proof.
  unfold observe. cbv zeta.
  destruct (matchExisting _ _ lms) as [fused|] eqn:Em.
  - apply matchExisting_length in Em. simpl. lia.
  - unfold maxLandmarks.
    destruct (Z.ltb_spec (Z.of_nat (length lms)) 500); simpl.
    + rewrite length_app. simpl. lia.
    + lia.
Qed.

Lemma updateLoop_length (ids : nat -> Entropy) (p : Pose)
    (features : list Feature) (lms : list Landmark) (k : nat) :
  let r := fst (fold_left (observe ids p) features (lms, k)) in
  (length lms <= length r <= length lms + length features)%nat
  /\ (length r <= Nat.max (length lms) 500)%nat.
Proof.
  revert lms k. induction features as [|feat feats IH]; intros lms k;
    cbn [fold_left]; cbv zeta.
  - simpl. lia.
  - pose proof (observe_length ids p lms k feat) as H1. cbv zeta in H1.
    destruct (observe ids p (lms, k) feat) as [lms1 k1]. simpl in H1.
    specialize (IH lms1 k1). cbv zeta in IH. cbn [length]. lia.
Qed.

(** X7. An update of the map never removes a landmark, admits at most
    one new landmark per feature, and never lets the map grow beyond 500
    landmarks; a map that already holds 500 or more keeps its size. *)
Theorem updateMap_capacity (ids : nat -> Entropy)
    (landmarks : list Landmark) (features : list Feature) (p : Pose) :
  (length landmarks <= length (updateMap ids landmarks features p)
   <= length landmarks + length features)%nat
  /\ (length (updateMap ids landmarks features p)
      <= Nat.max (length landmarks) 500)%nat.
Proof.
  unfold updateMap.
  pose proof (updateLoop_length ids p features landmarks 0) as H.
  cbv zeta in H. destruct H as [Hgrow Hcap].
  split; [exact Hgrow|exact Hcap].
Qed.

(** Fusing moves the landmark towards the observation. *)
Lemma fuse_stays_close (lm : Landmark) (wx wy : R) :
  0 <= quality lm ->
  (hypot (lm_x lm - wx) (lm_y lm - wy) < matchDistance)%R ->
  (hypot (lm_x (fuse lm wx wy) - wx) (lm_y (fuse lm wx wy) - wy)
   < matchDistance)%R.
Proof.
  intros Hq Hclose.
  assert (HD : (0 < matchDistance)%R) by (unfold matchDistance; lra).
  apply LandmarkFacts.hypot_lt in Hclose; [|exact HD].
  apply LandmarkFacts.hypot_lt; [exact HD|].
  unfold fuse. cbn [lm_x lm_y].
  assert (HQ : (0 <= IZR (quality lm))%R) by (apply IZR_le; exact Hq).
  set (Q := IZR (quality lm)) in *.
  set (c := (Q / (Q + 1))%R).
  assert (Hc : (0 <= c < 1)%R).
  { unfold c. split.
    - apply Rmult_le_pos; [lra|]. left. apply Rinv_0_lt_compat. lra.
    - apply Rmult_lt_reg_r with (Q + 1)%R; [lra|].
      unfold Rdiv. rewrite Rmult_assoc, Rinv_l by lra. lra. }
  replace ((lm_x lm * Q + wx) / (Q + 1) - wx)%R
    with (c * (lm_x lm - wx))%R by (unfold c; field; lra).
  replace ((lm_y lm * Q + wy) / (Q + 1) - wy)%R
    with (c * (lm_y lm - wy))%R by (unfold c; field; lra).
  set (a := (lm_x lm - wx)%R) in *. set (b := (lm_y lm - wy)%R) in *.
  assert (Hcc : (c * c <= 1)%R) by nra.
  assert (Hab : (0 <= a * a + b * b)%R) by nra.
  replace (c * a * (c * a) + c * b * (c * b))%R
    with (c * c * (a * a + b * b))%R by ring.
  nra.
Qed.

Lemma matchExisting_represents (wx wy : R) (lms lms' : list Landmark) :
  Forall Inv.qualityInRange lms ->
  matchExisting wx wy lms = Some lms' ->
  exists lm, In lm lms'
             /\ (hypot (lm_x lm - wx) (lm_y lm - wy) < matchDistance)%R.
Proof.
  intros Hq. revert lms'.
  induction Hq as [|lm rest Hlm Hrest IH]; intros lms' Hm; simpl in Hm;
    [discriminate|].
  destruct (Rlt_dec _ _) as [Hclose|_].
  - injection Hm as <-. exists (fuse lm wx wy). split; [now left|].
    apply fuse_stays_close; [|exact Hclose].
    unfold Inv.qualityInRange in Hlm. lia.
  - destruct (matchExisting wx wy rest) as [rest'|]; [|discriminate].
    injection Hm as <-.
    destruct (IH rest' eq_refl) as (l & Hin & Hl).
    exists l. split; [now right|exact Hl].
Qed.

(** X8. Data association is consistent: once a feature has been
    processed on a map below capacity, the map holds a landmark within
    the match distance (0.01) of the feature's projection - the landmark
    it was fused into, or the one inserted for it. *)
Theorem observe_represents (ids : nat -> Entropy) (p : Pose)
    (lms : list Landmark) (k : nat) (feat : Feature) :
  Forall Inv.qualityInRange lms ->
  (length lms < 500)%nat ->
  exists lm,
    In lm (fst (observe ids p (lms, k) feat))
    /\ (hypot (lm_x lm - worldX p feat) (lm_y lm - worldY p feat)
        < matchDistance)%R.
Proof.
  intros Hq Hroom. unfold observe. cbv zeta.
  destruct (matchExisting _ _ lms) as [fused|] eqn:Em.
  - simpl. eapply matchExisting_represents; eassumption.
  - unfold maxLandmarks.
    destruct (Z.ltb_spec (Z.of_nat (length lms)) 500); [|lia].
    simpl. eexists. split.
    + apply in_or_app. right. now left.
    + cbn [lm_x lm_y]. apply LandmarkFacts.hypot_lt; unfold matchDistance; lra.
Qed.

Lemma observe_represents_witness :
  Forall Inv.qualityInRange []
  /\ (length (@nil Landmark) < 500)%nat
  /\ exists lm,
      In lm (fst (observe Examples.frozenIds Examples.origin ([], 0%nat)
                          Examples.featUpper))
      /\ (hypot (lm_x lm - worldX Examples.origin Examples.featUpper)
                (lm_y lm - worldY Examples.origin Examples.featUpper)
          < matchDistance)%R.
Proof.
  split; [constructor|]. split; [simpl; lia|].
  apply (observe_represents Examples.frozenIds Examples.origin [] 0
           Examples.featUpper).
  - constructor.
  - simpl. lia.
Defined.

End LandmarkExtra.

(** ** OdometryPipeline: invariants of a run *)

Module PipelineExtra.
Import Pipeline.

(** *** Trajectory *)

Lemma last_app_one {A} (l : list A) (x d : A) : last (l ++ [x]) d = x.
Proof. apply last_last. Qed.

Lemma tl_app_one {A} (l : list A) (x : A) :
  l <> [] -> tl (l ++ [x]) = tl l ++ [x].
Proof. destruct l; [congruence|reflexivity]. Qed.

Lemma appendPosition_spec (trajectory : list Position) (p : Position) :
  trajectory <> [] ->
  appendPosition trajectory p
  = (if (length trajectory <? 500)%nat then trajectory else tl trajectory)
    ++ [p].
Proof.
  intros Hne. unfold appendPosition, maxTrajectory. cbv zeta.
  rewrite length_app. cbn [length].
  destruct (Nat.ltb_spec 500 (length trajectory + 1)),
           (Nat.ltb_spec (length trajectory) 500); try lia.
  - now apply tl_app_one.
  - reflexivity.
Qed.

Lemma appendPosition_last (trajectory : list Position) (p d : Position) :
  last (appendPosition trajectory p) d = p.
Proof.
  unfold appendPosition, maxTrajectory. cbv zeta.
  destruct (Nat.ltb_spec 500 (length (trajectory ++ [p]))) as [H|H].
  - rewrite length_app in H. cbn [length] in H.
    rewrite tl_app_one by (destruct trajectory; simpl in *; [lia|discriminate]).
    apply last_app_one.
  - apply last_app_one.
Qed.

Lemma tl_length {A} (l : list A) : length (tl l) = (length l - 1)%nat.
Proof. destruct l; simpl; lia. Qed.

(** The position recorded for a pose. *)
Local Abbreviation positionOf pose := (mkPosition (pose_x pose) (pose_y pose)).

Lemma reachable_trajectory (s : State) :
  reachable s ->
  (1 <= length (trajectoryRef s) <= 500)%nat
  /\ last (trajectoryRef s) (mkPosition 0 0) = positionOf (poseRef s).
Proof.
  induction 1 as [|s inp Hr [Hlen Hlast]|s Hr _].
  - simpl. split; [lia|reflexivity].
  - unfold processSLAMFrame. cbv zeta. cbn [trajectoryRef poseRef].
    assert (Hne : trajectoryRef s <> [])
      by (destruct (trajectoryRef s); simpl in *; [lia|discriminate]).
    rewrite appendPosition_spec by exact Hne.
    rewrite last_app_one, length_app. cbn [length pose_x pose_y].
    split; [|reflexivity].
    destruct (Nat.ltb_spec (length (trajectoryRef s)) 500).
    + lia.
    + rewrite tl_length. lia.
  - simpl. split; [lia|reflexivity].
Qed.

(** X9. Throughout a run the trajectory holds between 1 and 500 points
    and ends with the position of the current pose; a cycle appends the
    new position and, when 500 points are already held, drops the
    oldest one. *)
Theorem trajectory_is_a_window (s : State) :
  reachable s ->
  (1 <= length (trajectoryRef s) <= 500)%nat
  /\ last (trajectoryRef s) (mkPosition 0 0) = positionOf (poseRef s)
  /\ forall inp,
       trajectoryRef (processSLAMFrame s inp)
       = (if (length (trajectoryRef s) <? 500)%nat
          then trajectoryRef s else tl (trajectoryRef s))
         ++ [positionOf (poseRef (processSLAMFrame s inp))].
Proof.
  intros Hr. destruct (reachable_trajectory s Hr) as [Hlen Hlast].
  split; [exact Hlen|]. split; [exact Hlast|].
  intros inp. unfold processSLAMFrame. cbv zeta.
  cbn [trajectoryRef poseRef pose_x pose_y].
  apply appendPosition_spec.
  destruct (trajectoryRef s); simpl in *; [lia|discriminate].
Qed.

Lemma trajectory_is_a_window_witness :
  reachable Examples.afterA
  /\ (1 <= length (trajectoryRef Examples.afterA) <= 500)%nat.
Proof.
  assert (Hr : reachable Examples.afterA) by apply reach_cycle, reach_init.
  split; [exact Hr|].
  destruct (trajectory_is_a_window Examples.afterA Hr) as [H _]. exact H.
Defined.

(** *** Landmark count *)

(** X10. Throughout a run the map holds at most 500 landmarks, and a
    cycle adds at most as many landmarks as the frame has features. *)
Theorem landmark_count_capped (s : State) :
  reachable s ->
  (length (landmarksRef s) <= 500)%nat
  /\ forall inp,
       (length (landmarksRef s)
        <= length (landmarksRef (processSLAMFrame s inp))
        <= length (landmarksRef s)
           + length (Detector.extractFeatures (grayData inp)
                                              (depthData inp)))%nat.
Proof.
  intros Hr. split.
  - induction Hr as [|s inp Hr IH|s Hr _]; simpl; try lia.
    unfold processSLAMFrame. cbv zeta. cbn [landmarksRef].
    match goal with
    | |- context [LandmarkMap.updateMap ?ids ?lms ?fs ?p] =>
        pose proof (LandmarkExtra.updateLoop_length ids p fs lms 0) as H
    end.
    cbv zeta in H. unfold LandmarkMap.updateMap. lia.
  - intros inp. unfold processSLAMFrame. cbv zeta. cbn [landmarksRef].
    match goal with
    | |- context [LandmarkMap.updateMap ?ids ?lms ?fs ?p] =>
        pose proof (LandmarkExtra.updateLoop_length ids p fs lms 0) as H
    end.
    cbv zeta in H. unfold LandmarkMap.updateMap. lia.
Qed.

Lemma landmark_count_capped_witness :
  reachable Examples.afterA
  /\ (length (landmarksRef Examples.afterA) <= 500)%nat.
Proof.
  assert (Hr : reachable Examples.afterA) by apply reach_cycle, reach_init.
  split; [exact Hr|].
  destruct (landmark_count_capped Examples.afterA Hr) as [H _]. exact H.
Defined.

(** *** The two-frame memory *)

(** X11. The previous frame and the previous features are absent
    together, which is the case in the initial state only, or present
    together, the features being those extracted from the stored
    frame. *)
Theorem previous_frame_memory (s : State) :
  reachable s ->
  (prevFrameRef s = None /\ prevFeaturesRef s = None /\ s = initialState)
  \/ exists frame depth,
       prevFrameRef s = Some frame
       /\ prevFeaturesRef s = Some (Detector.extractFeatures frame depth).
Proof.
  induction 1 as [|s inp Hr _|s Hr _].
  - left. now repeat split.
  - right. exists (grayData inp), (depthData inp). now split.
  - left. now repeat split.
Qed.

Lemma previous_frame_memory_witness :
  reachable Examples.afterA
  /\ ((prevFrameRef Examples.afterA = None
       /\ prevFeaturesRef Examples.afterA = None
       /\ Examples.afterA = initialState)
      \/ exists frame depth,
           prevFrameRef Examples.afterA = Some frame
           /\ prevFeaturesRef Examples.afterA
              = Some (Detector.extractFeatures frame depth)).
Proof.
  assert (Hr : reachable Examples.afterA) by apply reach_cycle, reach_init.
  split; [exact Hr|].
  exact (previous_frame_memory Examples.afterA Hr).
Defined.

(** *** Pose steps *)

Lemma cycleMatches_tracked (s : State) (inp : Inputs) (m : Match) :
  In m (cycleMatches s inp) ->
  exists prevFrame prevFeatures,
    In m (Tracker.trackFeatures prevFrame (grayData inp) prevFeatures).
Proof.
  unfold cycleMatches.
  destruct (prevFrameRef s) as [pf|]; [|contradiction].
  destruct (prevFeaturesRef s) as [fs|]; [|contradiction].
  intros H. now exists pf, fs.
Qed.

Lemma displacement_magnitude (o : Z) :
  In o Tracker.offsets ->
  (1 / 1000 <= Rabs (IZR o * Estimator.pixelToMeter) <= 20 / 1000)%R.
Proof.
  intros Ho. pose proof (TrackerExtra.offsets_nonzero o Ho) as Hnz.
  apply TrackerExtra.offsets_spec in Ho as [Hr _].
  unfold Estimator.pixelToMeter.
  assert (H20 : (-20 <= IZR o <= 20)%R)
    by (split; apply IZR_le; lia).
  destruct (Z_lt_le_dec o 0) as [Hneg|Hpos].
  - assert (Ho1 : (IZR o <= -1)%R) by (apply IZR_le; lia).
    rewrite Rabs_left by lra. lra.
  - assert (Ho1 : (1 <= IZR o)%R) by (apply IZR_le; lia).
    rewrite Rabs_right by lra. lra.
Qed.

Lemma cycleDelta_cases (s : State) (inp : Inputs) :
  cycleDelta s inp = Estimator.zeroDelta
  \/ (1 / 1000 <= Rabs (dx (cycleDelta s inp)) <= 20 / 1000
      /\ 1 / 1000 <= Rabs (dy (cycleDelta s inp)) <= 20 / 1000)%R.
Proof.
  destruct (Nat.le_gt_cases (length (cycleMatches s inp)) 5) as [Hfew|Hmany].
  - left. now apply PipelineFacts.cycleDelta_upto.
  - right. rewrite PipelineFacts.cycleDelta_above by exact Hmany.
    destruct (EstimatorExtra.estimatePose_dx_In (cycleMatches s inp))
      as (d1 & Hd1 & ->); [lia|].
    destruct (EstimatorExtra.estimatePose_dy_In (cycleMatches s inp))
      as (d2 & Hd2 & ->); [lia|].
    apply in_map_iff in Hd1 as (m1 & <- & Hm1).
    apply in_map_iff in Hd2 as (m2 & <- & Hm2).
    apply cycleMatches_tracked in Hm1 as (pf1 & fs1 & Hm1).
    apply cycleMatches_tracked in Hm2 as (pf2 & fs2 & Hm2).
    destruct (TrackerExtra.trackFeatures_found _ _ _ _ Hm1)
      as (ox & oy1 & Hox & _ & _ & Hp1 & _).
    destruct (TrackerExtra.trackFeatures_found _ _ _ _ Hm2)
      as (ox2 & oy & _ & Hoy & _ & Hp2 & _).
    rewrite Hp1, Hp2. cbn [pt_x pt_y].
    replace (feat_x (prev m1) + ox - feat_x (prev m1)) with ox by lia.
    replace (feat_y (prev m2) + oy - feat_y (prev m2)) with oy by lia.
    split.
    + replace (- IZR ox * Estimator.pixelToMeter)%R
        with (- (IZR ox * Estimator.pixelToMeter))%R by ring.
      rewrite Rabs_Ropp. now apply displacement_magnitude.
    + now apply displacement_magnitude.
Qed.

Lemma cycleDelta_heading (s : State) (inp : Inputs) :
  (Rabs (dHeading (cycleDelta s inp)) < 1 / 2)%R.
Proof.
  unfold cycleDelta. cbv zeta.
  destruct (5 <? Z.of_nat (length (cycleMatches s inp))).
  - unfold Estimator.fuseIMU.
    apply EstimatorExtra.estimatePose_heading_bounded.
  - simpl. rewrite Rabs_R0. lra.
Qed.


(** X13. A cycle that tracks five correspondences or fewer - the first
    cycle and the cycle after a reset among them - leaves the pose as it
    is and records the unchanged position. *)
Theorem processSLAMFrame_stale_pose (s : State) (inp : Inputs) :
  (length (cycleMatches s inp) <= 5)%nat ->
  poseRef (processSLAMFrame s inp) = poseRef s
  /\ last (trajectoryRef (processSLAMFrame s inp)) (mkPosition 0 0)
     = positionOf (poseRef s).
Proof.
  intros Hfew.
  assert (Hpose : poseRef (processSLAMFrame s inp) = poseRef s).
  { unfold processSLAMFrame. cbv zeta. cbn [poseRef].
    rewrite PipelineFacts.cycleDelta_upto by exact Hfew.
    destruct (poseRef s) as [x y h]. simpl. f_equal; lra. }
  split; [exact Hpose|].
  rewrite <- Hpose.
  unfold processSLAMFrame. cbv zeta. cbn [trajectoryRef poseRef].
  apply appendPosition_last.
Qed.

Lemma processSLAMFrame_stale_pose_witness :
  (length (cycleMatches initialState Examples.inputsA) <= 5)%nat
  /\ poseRef (processSLAMFrame initialState Examples.inputsA)
     = poseRef initialState.
Proof.
  split.
  - simpl. lia.
  - assert (Hfew : (length (cycleMatches initialState Examples.inputsA)
                    <= 5)%nat) by (simpl; lia).
    destruct (processSLAMFrame_stale_pose initialState Examples.inputsA Hfew)
      as [H _].
    exact H.
Defined.

End PipelineExtra.

(** ** FeatureDetector: shape of the output *)

Module DetectorExtra.
Import Detector.

Lemma keyEqb_eq (a b : Z * Z) : keyEqb a b = true <-> a = b.
Proof.
  unfold keyEqb. destruct a as [a1 a2], b as [b1 b2]. simpl.
  rewrite andb_true_iff, !Z.eqb_eq. split.
  - intros [-> ->]. reflexivity.
  - intros E. injection E as -> ->. now split.
Qed.

(** The 6-pixel cell of a candidate and of a feature. *)
Local Abbreviation rawCell r := (raw_x r / gridSize, raw_y r / gridSize).
Local Abbreviation cellOf f := (feat_x f / 6, feat_y f / 6).

(** What holds of every entry of [grid] beside [Inv.candidate]: it is
    filed under its own cell, with the depth read at its pixel. *)
Local Abbreviation filed frame depthData kv :=
  (fst kv = rawCell (snd kv)
   /\ raw_depth (snd kv)
      = depthAt depthData (raw_y (snd kv) * width frame + raw_x (snd kv))).

Lemma gridSet_keys (g : Grid) (k : Z * Z) (v : RawFeature) :
  map fst (gridSet g k v)
  = if existsb (keyEqb k) (map fst g) then map fst g else map fst g ++ [k].
Proof.
  induction g as [|[k' v'] g IH]; simpl; [reflexivity|].
  destruct (keyEqb k k'); simpl; [reflexivity|].
  rewrite IH. now destruct (existsb (keyEqb k) (map fst g)).
Qed.

Lemma gridSet_NoDup (g : Grid) (k : Z * Z) (v : RawFeature) :
  NoDup (map fst g) -> NoDup (map fst (gridSet g k v)).
Proof.
  intros Hg. rewrite gridSet_keys.
  destruct (existsb (keyEqb k) (map fst g)) eqn:E; [exact Hg|].
  apply NoDup_app; [exact Hg|repeat constructor; intros []|].
  intros a Ha Hk. destruct Hk as [Hk|[]]. subst a.
  assert (Hex : existsb (keyEqb k) (map fst g) = true).
  { apply existsb_exists. exists k. split; [exact Ha|]. now apply keyEqb_eq. }
  congruence.
Qed.

Lemma gridSet_Forall_entries (P : (Z * Z) * RawFeature -> Prop) (g : Grid)
    (k : Z * Z) (v : RawFeature) :
  Forall P g -> P (k, v) -> Forall P (gridSet g k v).
Proof.
  intros Hg Hv. induction Hg as [|[k' v'] g Hkv Hg IH]; simpl.
  - now repeat constructor.
  - destruct (keyEqb k k') eqn:E.
    + apply keyEqb_eq in E. subst k'. now constructor.
    + now constructor.
Qed.

Lemma visit_filed (frame : ImageData) (depthData : option DepthData)
    (g : Grid) (x y : Z) :
  NoDup (map fst g) /\ Forall (fun kv => filed frame depthData kv) g ->
  NoDup (map fst (visit frame depthData y g x))
  /\ Forall (fun kv => filed frame depthData kv) (visit frame depthData y g x).
Proof.
  intros [Hnd Hg]. unfold visit.
  destruct (ringCounts frame x y) as [b d].
  destruct ((12 <=? b) || (12 <=? d)); [|now split].
  destruct (gridGet g (x / gridSize, y / gridSize)) as [old|].
  - destruct (raw_score old <? Z.max b d); [|now split].
    split; [now apply gridSet_NoDup|].
    apply gridSet_Forall_entries; [exact Hg|]. simpl. now split.
  - split; [now apply gridSet_NoDup|].
    apply gridSet_Forall_entries; [exact Hg|]. simpl. now split.
Qed.

Lemma scan_filed (frame : ImageData) (depthData : option DepthData) :
  NoDup (map fst (scan frame depthData))
  /\ Forall (fun kv => filed frame depthData kv) (scan frame depthData).
Proof.
  unfold scan.
  apply (DetectorFacts.fold_left_invariant
           (fun g => NoDup (map fst g)
                     /\ Forall (fun kv => filed frame depthData kv) g)).
  - intros g y _ Hg. unfold scanRow.
    apply (DetectorFacts.fold_left_invariant
             (fun g => NoDup (map fst g)
                       /\ Forall (fun kv => filed frame depthData kv) g));
      [|exact Hg].
    intros g' x _ Hg'. now apply visit_filed.
  - split; constructor.
Qed.

Lemma extractFeatures_In (frame : ImageData) (depthData : option DepthData)
    (f : Feature) :
  In f (extractFeatures frame depthData) ->
  exists raw, In raw (rawFeaturesOf frame depthData) /\ f = toFeature raw.
Proof.
  unfold extractFeatures. cbv zeta. intros Hin.
  apply DetectorFacts.firstn_In in Hin.
  apply in_map_iff in Hin as [raw [<- Hin]].
  apply filter_In in Hin as [Hin _]. now exists raw.
Qed.

(** X14. Every returned feature is typed "obstacle", has a score
    between 12 and 16, sits on the sampling lattice (x and y are 10 plus
    a multiple of 3), and carries the depth read at its pixel - none
    when no depth data is given. *)
Theorem extractFeatures_feature_shape (frame : ImageData)
    (depthData : option DepthData) (f : Feature) :
  In f (extractFeatures frame depthData) ->
  feat_type f = obstacle
  /\ 12 <= feat_score f <= 16
  /\ (feat_x f - 10) mod 3 = 0
  /\ (feat_y f - 10) mod 3 = 0
  /\ feat_depth f
     = depthAt depthData (feat_y f * width frame + feat_x f)
  /\ (depthData = None -> feat_depth f = None).
Proof.
  intros Hin. apply extractFeatures_In in Hin as (raw & Hraw & ->).
  pose proof (DetectorFacts.rawFeatures_candidates _ _ _ Hraw) as Hc.
  pose proof (DetectorFacts.candidate_counts _ _ Hc) as Hb.
  destruct Hc as (Hx & Hy & _ & Hscore & Hcorner).
  apply JsFacts.forRange_In in Hx; [|lia].
  apply JsFacts.forRange_In in Hy; [|lia].
  assert (Hdepth : raw_depth raw
                   = depthAt depthData (raw_y raw * width frame + raw_x raw)).
  { unfold rawFeaturesOf in Hraw.
    apply in_map_iff in Hraw as [[k v] [<- Hkv]].
    destruct (scan_filed frame depthData) as [_ Hall].
    rewrite Forall_forall in Hall. apply (Hall _ Hkv). }
  unfold toFeature. cbn [feat_type feat_score feat_x feat_y feat_depth].
  split; [reflexivity|]. split; [lia|].
  split; [apply Hx|]. split; [apply Hy|]. split; [exact Hdepth|].
  intros ->. rewrite Hdepth. reflexivity.
Qed.

Lemma extractFeatures_feature_shape_witness :
  In (mkFeature 100 100 16 obstacle None)
     (extractFeatures Examples.frameA None)
  /\ 12 <= 16 <= 16 /\ (100 - 10) mod 3 = 0.
Proof.
  assert (Hin : In (mkFeature 100 100 16 obstacle None)
                   (extractFeatures Examples.frameA None)).
  { rewrite DetectorFacts.extractFeatures_frameA. simpl. now left. }
  split; [exact Hin|].
  pose proof (extractFeatures_feature_shape Examples.frameA None _ Hin) as H.
  split; apply H.
Defined.

(** Dropping entries keeps their keys distinct. *)
Lemma distinct_keys_filter {K V : Type} (key : V -> K) (keep : V -> bool)
    (entries : list V) (Hkeys : NoDup (map key entries)) :
  NoDup (map key (filter keep entries)).
Proof.
  induction entries as [|e entries IH]; simpl in *; [constructor|].
  inversion Hkeys as [|? ? Hnin Hnd]; subst.
  destruct (keep e); simpl; [|now apply IH].
  constructor; [|now apply IH].
  intros Hin. apply Hnin. apply in_map_iff in Hin as (b & Hb & Hin).
  apply filter_In in Hin as [Hin _]. apply in_map_iff. now exists b.
Qed.

Lemma NoDup_firstn {A} (n : nat) (l : list A) : NoDup l -> NoDup (firstn n l).
Proof.
  intros H. rewrite <- (firstn_skipn n l) in H.
  now apply NoDup_app_remove_r in H.
Qed.

(** X15. Non-maximum suppression: no two returned features fall in the
    same 6 x 6 pixel cell. *)
Theorem extractFeatures_one_per_cell (frame : ImageData)
    (depthData : option DepthData) :
  NoDup (map (fun f => cellOf f) (extractFeatures frame depthData)).
Proof.
  unfold extractFeatures. cbv zeta.
  rewrite <- firstn_map. apply NoDup_firstn.
  rewrite map_map. cbn [toFeature feat_x feat_y].
  apply distinct_keys_filter.
  unfold rawFeaturesOf. rewrite map_map.
  destruct (scan_filed frame depthData) as [Hnd Hall].
  erewrite map_ext_in; [exact Hnd|].
  intros kv Hkv. rewrite Forall_forall in Hall.
  destruct (Hall kv Hkv) as [Hk _]. now rewrite Hk.
Qed.

(** The ring counts of a position whose readings are all within the
    threshold of one another. *)
Lemma ringLoop_flat (frame : ImageData) (x y : Z) (c : option Z)
    (offs : list (Z * Z)) :
  (forall i u v, Js.read (data frame) (i * 4) = Some u -> c = Some v ->
                 Z.abs (u - v) <= threshold) ->
  fold_left (ringStep frame x y c) offs (0, 0) = (0, 0).
Proof.
  intros Hflat. induction offs as [|[ox oy] offs IH]; simpl; [reflexivity|].
  destruct (Js.read (data frame) (((y + oy) * width frame + (x + ox)) * 4))
    as [u|] eqn:Eu; destruct c as [v|]; simpl; try exact IH.
  specialize (Hflat _ u v Eu eq_refl).
  destruct (Z.ltb_spec (v + threshold) u); [lia|].
  destruct (Z.ltb_spec u (v - threshold)); [lia|].
  exact IH.
Qed.

(** X16. A frame whose intensities (the first of the four bytes of each
    pixel) differ from one another by at most the threshold (20) has no
    feature. *)
Theorem extractFeatures_low_contrast (frame : ImageData)
    (depthData : option DepthData) :
  (forall i j u v,
      Js.read (data frame) (i * 4) = Some u ->
      Js.read (data frame) (j * 4) = Some v ->
      Z.abs (u - v) <= 20) ->
  extractFeatures frame depthData = [].
Proof.
  intros Hflat.
  destruct (extractFeatures frame depthData) as [|f fs] eqn:E;
    [reflexivity|exfalso].
  assert (Hin : In f (extractFeatures frame depthData))
    by (rewrite E; now left).
  apply extractFeatures_In in Hin as (raw & Hraw & _).
  apply DetectorFacts.rawFeatures_candidates in Hraw.
  destruct Hraw as (_ & _ & Hring & _ & Hcorner).
  unfold ringCounts in Hring. cbv zeta in Hring.
  rewrite ringLoop_flat in Hring.
  - injection Hring as Hb Hd. lia.
  - intros i u v Hu Hv. unfold threshold. eapply Hflat; eassumption.
Qed.

Lemma flatFrame_reading (i u : Z) :
  Js.read (data Examples.flatFrame) (i * 4) = Some u -> u = 128.
Proof.
  unfold Js.read. simpl.
  destruct (_ && _); [|discriminate].
  change 3 with (Z.ones 2). rewrite Z.land_ones by lia.
  change (2 ^ 2) with 4. rewrite Z_mod_mult. simpl.
  intros E. now injection E.
Qed.

Lemma extractFeatures_low_contrast_witness :
  extractFeatures Examples.flatFrame None = [].
Proof.
  apply (extractFeatures_low_contrast Examples.flatFrame None).
  intros i j u v Hu Hv.
  apply flatFrame_reading in Hu. apply flatFrame_reading in Hv.
  subst. simpl. lia.
Defined.

(** X17. A frame that is not wider or not higher than the two borders
    (20 pixels) has no feature. *)
Theorem extractFeatures_small_frame (frame : ImageData)
    (depthData : option DepthData) :
  width frame <= 20 \/ height frame <= 20 ->
  extractFeatures frame depthData = [].
Proof.
  intros Hsmall.
  destruct (extractFeatures frame depthData) as [|f fs] eqn:E;
    [reflexivity|exfalso].
  assert (Hin : In f (extractFeatures frame depthData))
    by (rewrite E; now left).
  apply extractFeatures_In in Hin as (raw & Hraw & _).
  apply DetectorFacts.rawFeatures_candidates in Hraw.
  destruct Hraw as (Hx & Hy & _).
  apply JsFacts.forRange_In in Hx; [|lia].
  apply JsFacts.forRange_In in Hy; [|lia].
  lia.
Qed.

Lemma extractFeatures_small_frame_witness :
  extractFeatures (mkImage 640 20 (data Examples.frameA)) None = [].
Proof.
  apply (extractFeatures_small_frame (mkImage 640 20 (data Examples.frameA))
                                     None).
  right. simpl. lia.
Defined.

End DetectorExtra.

(** ** Overlay *)

Module OverlayFacts.
Import Overlay.

Lemma every_index (features : list Feature) :
  flat_map (fun k => match nth_error features k with
                     | Some feat => [feat]
                     | None => []
                     end)
           (seq 0 (length features))
  = features.
Proof.
  induction features as [|f fs IH]; [reflexivity|].
  cbn [length]. rewrite <- cons_seq, <- seq_shift. cbn [flat_map nth_error].
  rewrite flat_map_concat_map, map_map, <- flat_map_concat_map.
  cbn [nth_error app]. f_equal. exact IH.
Qed.

Lemma renderedFeatures_all (features : list Feature) :
  renderStep features = 1 -> renderedFeatures features = features.
Proof.
  intros Hstep. unfold renderedFeatures, Js.forRange. rewrite Hstep.
  replace ((Z.of_nat (length features) - 0 + 1 - 1) / 1)
    with (Z.of_nat (length features)) by (rewrite Z.div_1_r; lia).
  rewrite Nat2Z.id, flat_map_concat_map, map_map, <- flat_map_concat_map.
  etransitivity; [|apply every_index].
  apply flat_map_ext. intros k.
  replace (Z.to_nat (0 + 1 * Z.of_nat k)) with k by lia. reflexivity.
Qed.

(** X18. The overlay draws a marker for every feature of the frame: the
    detector returns at most 1500 features, for which the stride
    max(1, floor(n / 800)) is always 1. *)
Theorem overlay_draws_every_feature (frame : ImageData)
    (depthData : option DepthData) :
  renderStep (Detector.extractFeatures frame depthData) = 1
  /\ renderedFeatures (Detector.extractFeatures frame depthData)
     = Detector.extractFeatures frame depthData.
Proof.
  assert (Hstep : renderStep (Detector.extractFeatures frame depthData) = 1).
  { unfold renderStep.
    assert (Hlen : (length (Detector.extractFeatures frame depthData)
                    <= 1500)%nat).
    { unfold Detector.extractFeatures. cbv zeta. apply firstn_le_length. }
    assert (Hq : Z.of_nat (length (Detector.extractFeatures frame depthData))
                 / 800 <= 1).
    { apply Z.lt_succ_r. apply Z.div_lt_upper_bound; lia. }
    lia. }
  split; [exact Hstep|]. now apply renderedFeatures_all.
Qed.

End OverlayFacts.

(** ** Trajectory view *)

Module TrajectoryViewFacts.
Import Pipeline TrajectoryView.

(** The running minimum and maximum of a scan. *)
Lemma lower_scan (vs : list R) (m : option R) :
  let r := fold_left lower vs m in
  (forall v, In v vs -> exists b, r = Some b /\ (b <= v)%R)
  /\ (forall a, m = Some a -> exists b, r = Some b /\ (b <= a)%R).
Proof.
  revert m. induction vs as [|v vs IH]; intros m; cbn [fold_left]; cbv zeta.
  - split; [intros v []|]. intros a ->. exists a. split; [reflexivity|lra].
  - specialize (IH (lower m v)). cbv zeta in IH. destruct IH as [IH1 IH2].
    assert (Hstep : exists c, lower m v = Some c /\ (c <= v)%R
                              /\ forall a, m = Some a -> (c <= a)%R).
    { unfold lower. destruct m as [r|].
      - destruct (Rlt_dec v r).
        + exists v. repeat split; try lra. intros a E. injection E as <-. lra.
        + exists r. repeat split; try lra. intros a E. injection E as <-. lra.
      - exists v. repeat split; try lra. discriminate. }
    destruct Hstep as (c & Hc & Hcv & Hca).
    destruct (IH2 c Hc) as (b & Hb & Hbc).
    split.
    + intros w [<-|Hw]; [exists b; split; [exact Hb|lra]|now apply IH1].
    + intros a Ha. exists b. split; [exact Hb|]. specialize (Hca a Ha). lra.
Qed.

Lemma upper_scan (vs : list R) (m : option R) :
  let r := fold_left upper vs m in
  (forall v, In v vs -> exists b, r = Some b /\ (v <= b)%R)
  /\ (forall a, m = Some a -> exists b, r = Some b /\ (a <= b)%R).
Proof.
  revert m. induction vs as [|v vs IH]; intros m; cbn [fold_left]; cbv zeta.
  - split; [intros v []|]. intros a ->. exists a. split; [reflexivity|lra].
  - specialize (IH (upper m v)). cbv zeta in IH. destruct IH as [IH1 IH2].
    assert (Hstep : exists c, upper m v = Some c /\ (v <= c)%R
                              /\ forall a, m = Some a -> (a <= c)%R).
    { unfold upper. destruct m as [r|].
      - destruct (Rgt_dec v r).
        + exists v. repeat split; try lra. intros a E. injection E as <-. lra.
        + exists r. repeat split; try lra. intros a E. injection E as <-. lra.
      - exists v. repeat split; try lra. discriminate. }
    destruct Hstep as (c & Hc & Hcv & Hca).
    destruct (IH2 c Hc) as (b & Hb & Hbc).
    split.
    + intros w [<-|Hw]; [exists b; split; [exact Hb|lra]|now apply IH1].
    + intros a Ha. exists b. split; [exact Hb|]. specialize (Hca a Ha). lra.
Qed.

(** The four bounds are scanned independently. *)
Lemma boundsLoop_split (traj : list Position) (b : Bounds) :
  fold_left widen traj b
  = mkBounds (fold_left lower (map pos_x traj) (minX b))
             (fold_left upper (map pos_x traj) (maxX b))
             (fold_left lower (map pos_y traj) (minY b))
             (fold_left upper (map pos_y traj) (maxY b)).
Proof.
  revert b. induction traj as [|p traj IH]; intros b; simpl.
  - now destruct b.
  - rewrite IH. reflexivity.
Qed.

Lemma placement_encloses (width height : Z) (traj : list Position)
    (p : Position) :
  In p traj ->
  let pl := placementOf width height traj in
  (0 <= pos_x p - originX pl <= rangeX pl)%R
  /\ (0 <= pos_y p - originY pl <= rangeY pl)%R
  /\ (1 <= rangeX pl)%R /\ (1 <= rangeY pl)%R.
Proof.
  intros Hin. cbv zeta. unfold placementOf, boundsOf. cbv zeta.
  rewrite boundsLoop_split.
  cbn [minX maxX minY maxY originX originY rangeX rangeY].
  assert (Hx : In (pos_x p) (map pos_x traj)) by now apply in_map.
  assert (Hy : In (pos_y p) (map pos_y traj)) by now apply in_map.
  destruct (lower_scan (map pos_x traj) None) as [Hlx _].
  destruct (upper_scan (map pos_x traj) None) as [Hux _].
  destruct (lower_scan (map pos_y traj) None) as [Hly _].
  destruct (upper_scan (map pos_y traj) None) as [Huy _].
  destruct (Hlx _ Hx) as (a & -> & Ha). destruct (Hux _ Hx) as (b & -> & Hb).
  destruct (Hly _ Hy) as (c & -> & Hc). destruct (Huy _ Hy) as (d & -> & Hd).
  cbn [settled].
  pose proof (Rmax_l (b - a) 1). pose proof (Rmax_r (b - a) 1).
  pose proof (Rmax_l (d - c) 1). pose proof (Rmax_r (d - c) 1).
  repeat split; lra.
Qed.

(** A point of the padded area of the canvas. *)
Local Abbreviation inside width height xy :=
  (20 <= fst xy <= IZR width - 20 /\ 20 <= snd xy <= IZR height - 20)%R.

Lemma canvas_inside (width height : Z) (traj : list Position)
    (p : Position) :
  40 <= width -> 40 <= height -> In p traj ->
  inside width height
         (canvasX (placementOf width height traj) (pos_x p),
          canvasY (placementOf width height traj) (pos_y p)).
Proof.
  intros Hw Hh Hin.
  pose proof (placement_encloses width height traj p Hin) as H.
  cbv zeta in H. destruct H as (Hx & Hy & Hrx & Hry).
  unfold canvasX, canvasY, padding.
  set (pl := placementOf width height traj) in *.
  assert (Hcw : canvasWidth pl = IZR width) by reflexivity.
  assert (Hch : canvasHeight pl = IZR height) by reflexivity.
  rewrite Hcw, Hch.
  assert (HW : (40 <= IZR width)%R) by (apply IZR_le; exact Hw).
  assert (HH : (40 <= IZR height)%R) by (apply IZR_le; exact Hh).
  assert (Htx : (0 <= (pos_x p - originX pl) / rangeX pl <= 1)%R).
  { split.
    - apply Rmult_le_pos; [lra|]. left. apply Rinv_0_lt_compat. lra.
    - apply Rmult_le_reg_r with (rangeX pl); [lra|].
      unfold Rdiv. rewrite Rmult_assoc, Rinv_l by lra. lra. }
  assert (Hty : (0 <= (pos_y p - originY pl) / rangeY pl <= 1)%R).
  { split.
    - apply Rmult_le_pos; [lra|]. left. apply Rinv_0_lt_compat. lra.
    - apply Rmult_le_reg_r with (rangeY pl); [lra|].
      unfold Rdiv. rewrite Rmult_assoc, Rinv_l by lra. lra. }
  set (tx := ((pos_x p - originX pl) / rangeX pl)%R) in *.
  set (ty := ((pos_y p - originY pl) / rangeY pl)%R) in *.
  cbn [fst snd]. split; split; nra.
Qed.

Local Abbreviation target c :=
  (match c with MoveTo x y => (x, y) | LineTo x y => (x, y) end).



End TrajectoryViewFacts.

(** ** GPS path *)

Module GpsFacts.
Import Gps.

Lemma samePlace_refl (a : GpsPoint) : samePlace a a = true.
Proof.
  unfold samePlace. rewrite !Qeq_bool_refl. reflexivity.
Qed.

Lemma distinctNeighbours_snoc (path : list GpsPoint) (d p : GpsPoint) :
  distinctNeighbours path ->
  (path <> [] -> samePlace (last path d) p = false) ->
  distinctNeighbours (path ++ [p]).
Proof.
  induction path as [|a path IH]; intros Hd Hlast; [exact I|].
  destruct path as [|b path].
  - simpl. split; [|exact I]. apply Hlast. discriminate.
  - destruct Hd as [Hab Hd]. cbn [app distinctNeighbours]. split; [exact Hab|].
    apply IH; [exact Hd|]. intros _. apply Hlast. discriminate.
Qed.

Lemma appendFix_keeps (path : list GpsPoint) (p : GpsPoint) :
  distinctNeighbours path ->
  distinctNeighbours (appendFix path p)
  /\ (length path <= length (appendFix path p) <= S (length path))%nat
  /\ samePlace (last (appendFix path p) p) p = true.
Proof.
  intros Hd. unfold appendFix. destruct path as [|a path].
  - simpl. split; [exact I|]. split; [lia|]. apply samePlace_refl.
  - destruct (samePlace (last (a :: path) p) p) eqn:E.
    + split; [exact Hd|]. split; [lia|exact E].
    + split.
      * apply distinctNeighbours_snoc with (d := p); [exact Hd|].
        intros _. exact E.
      * split; [rewrite length_app; simpl; lia|].
        rewrite last_last. apply samePlace_refl.
Qed.

Lemma pathLoop_keeps (fixes : list GpsPoint) (path : list GpsPoint) :
  distinctNeighbours path ->
  distinctNeighbours (fold_left appendFix fixes path)
  /\ (length (fold_left appendFix fixes path)
      <= length path + length fixes)%nat.
Proof.
  revert path. induction fixes as [|p fixes IH]; intros path Hd; simpl.
  - split; [exact Hd|lia].
  - destruct (appendFix_keeps path p Hd) as (Hd' & Hlen & _).
    destruct (IH _ Hd') as [H1 H2]. split; [exact H1|lia].
Qed.

(** X20. However the fixes arrive, the recorded GPS path never holds two
    consecutive points with the same latitude and longitude, it has at
    most one point per fix, and a fix that is not at the place of the
    last recorded point becomes the last point of the path. *)
Theorem gps_path_has_no_repeats (fixes : list GpsPoint) (p : GpsPoint) :
  distinctNeighbours (pathAfter fixes)
  /\ (length (pathAfter fixes) <= length fixes)%nat
  /\ samePlace (last (pathAfter (fixes ++ [p])) p) p = true
  /\ (pathAfter (fixes ++ [p]) = pathAfter fixes
      \/ pathAfter (fixes ++ [p]) = pathAfter fixes ++ [p]).
Proof.
  unfold pathAfter. rewrite fold_left_app. cbn [fold_left].
  pose proof (pathLoop_keeps fixes [] I) as [Hd Hlen].
  cbn [length Nat.add] in Hlen.
  remember (fold_left appendFix fixes []) as path eqn:Epath.
  clear Epath.
  split; [exact Hd|]. split; [exact Hlen|].
  destruct (appendFix_keeps path p Hd) as (_ & _ & Hlast).
  split; [exact Hlast|]. clear Hlast.
  unfold appendFix. destruct path as [|a l]; [right; reflexivity|].
  destruct (samePlace (last (a :: l) p) p); [left|right]; reflexivity.
Qed.

End GpsFacts.

(** ** Dead reckoning *)

Module DeadReckoningFacts.
Import DeadReckoning.

(** The time between an event and the last accepted one, in seconds. *)
Local Abbreviation elapsed lastTimestamp event :=
  ((timeStamp event - lastTimestamp) / 1000)%R.

(** X21. A motion event without acceleration, or one that comes less
    than a millisecond after the last accepted event (or not after it at
    all), changes nothing - not even the stored time stamp. *)
Theorem handleDeviceMotion_ignores (st : DrState) (event : MotionEvent)
    (lastTimestamp : R) :
  acceleration event = None
  \/ (lastTimestampRef st = Some lastTimestamp
      /\ (elapsed lastTimestamp event < 1 / 1000)%R) ->
  handleDeviceMotion st event = st.
Proof.
  intros [Hnone|[Hlast Hdt]]; unfold handleDeviceMotion.
  - now rewrite Hnone.
  - destruct (acceleration event) as [[accX accY]|]; [|reflexivity].
    rewrite Hlast. cbv zeta.
    destruct (Rle_dec _ 0); [reflexivity|].
    destruct (Rlt_dec _ (1 / 1000)); [reflexivity|contradiction].
Qed.

Lemma handleDeviceMotion_ignores_witness :
  handleDeviceMotion initialDr (mkMotion None 5) = initialDr.
Proof.
  apply (handleDeviceMotion_ignores initialDr (mkMotion None 5) 0).
  left. reflexivity.
Defined.

(** The first event with an acceleration only records its time stamp:
    velocity, position and path are as before. *)
Lemma handleDeviceMotion_first_event (st : DrState) (event : MotionEvent)
    (acc : option R * option R) :
  acceleration event = Some acc ->
  lastTimestampRef st = None ->
  lastTimestampRef (handleDeviceMotion st event) = Some (timeStamp event)
  /\ velRef (handleDeviceMotion st event) = velRef st
  /\ posRef (handleDeviceMotion st event) = posRef st
  /\ pathRef (handleDeviceMotion st event) = pathRef st.
Proof.
  intros Hacc Hlast. unfold handleDeviceMotion. rewrite Hacc, Hlast.
  destruct acc. now repeat split.
Qed.

Lemma handleDeviceMotion_first_event_witness :
  lastTimestampRef
    (handleDeviceMotion initialDr (mkMotion (Some (Some 1%R, None)) 5))
  = Some 5%R.
Proof.
  destruct (handleDeviceMotion_first_event initialDr
              (mkMotion (Some (Some 1%R, None)) 5) (Some 1%R, None)
              eq_refl eq_refl) as [H _].
  exact H.
Defined.

(** What an accepted event does, by case. *)
Lemma handleDeviceMotion_accepted (st : DrState) (event : MotionEvent)
    (accX accY : option R) (lastTimestamp : R) :
  acceleration event = Some (accX, accY) ->
  lastTimestampRef st = Some lastTimestamp ->
  (1 / 1000 <= elapsed lastTimestamp event)%R ->
  let st' := handleDeviceMotion st event in
  let dt := elapsed lastTimestamp event in
  lastTimestampRef st' = Some (timeStamp event)
  /\ ((velRef st' = mkVec 0 0 /\ posRef st' = posRef st
       /\ pathRef st' = pathRef st
       /\ stationarySamplesRequired <= stationaryCountRef st')
      \/ (pathRef st' = pathRef st ++ [posRef st']
          /\ vec_x (posRef st')
             = (vec_x (posRef st) + vec_x (velRef st') * dt)%R
          /\ vec_y (posRef st')
             = (vec_y (posRef st) + vec_y (velRef st') * dt)%R
          /\ stationaryCountRef st' < stationarySamplesRequired)).
Proof.
  intros Hacc Hlast Hdt. cbv zeta. unfold handleDeviceMotion.
  rewrite Hacc, Hlast. cbv zeta.
  destruct (Rle_dec _ 0); [lra|].
  destruct (Rlt_dec _ (1 / 1000)); [lra|].
  match goal with
  | |- context [stationarySamplesRequired <=? ?c] =>
      destruct (Z.leb_spec stationarySamplesRequired c)
  end.
  - split; [reflexivity|]. left. cbn. now repeat split.
  - split; [reflexivity|]. right. cbn. now repeat split.
Qed.

(** X22. Zero-velocity update: when the five previous accepted samples
    were counted as stationary and the next accepted one has an
    acceleration magnitude below 0.12, the velocity is set to zero and
    position and path are left as they are. *)
Theorem handleDeviceMotion_zero_velocity_update (st : DrState)
    (event : MotionEvent) (accX accY : option R) (lastTimestamp : R) :
  acceleration event = Some (accX, accY) ->
  lastTimestampRef st = Some lastTimestamp ->
  (1 / 1000 <= elapsed lastTimestamp event)%R ->
  5 <= stationaryCountRef st ->
  (sqrt (orZero accX * orZero accX + orZero accY * orZero accY)
   < stationaryThreshold)%R ->
  velRef (handleDeviceMotion st event) = mkVec 0 0
  /\ posRef (handleDeviceMotion st event) = posRef st
  /\ pathRef (handleDeviceMotion st event) = pathRef st
  /\ stationaryCountRef (handleDeviceMotion st event)
     = stationaryCountRef st + 1.
Proof.
  intros Hacc Hlast Hdt Hcount Hstill. unfold handleDeviceMotion.
  rewrite Hacc, Hlast. cbv zeta.
  destruct (Rle_dec _ 0); [lra|].
  destruct (Rlt_dec _ (1 / 1000)); [lra|].
  destruct (Rlt_dec _ stationaryThreshold); [|contradiction].
  unfold stationarySamplesRequired.
  destruct (Z.leb_spec 6 (stationaryCountRef st + 1)); [|lia].
  now repeat split.
Qed.

Lemma handleDeviceMotion_zero_velocity_update_witness :
  velRef (handleDeviceMotion
            (mkDr (mkVec 1 1) (mkVec 2 3) [mkVec 2 3] 0 (Some 0%R) 5
                  (mkVec 0 0))
            (mkMotion (Some (None, None)) 20))
  = mkVec 0 0.
Proof.
  destruct (handleDeviceMotion_zero_velocity_update
              (mkDr (mkVec 1 1) (mkVec 2 3) [mkVec 2 3] 0 (Some 0%R) 5
                    (mkVec 0 0))
              (mkMotion (Some (None, None)) 20) None None 0) as [H _].
  - reflexivity.
  - reflexivity.
  - simpl. lra.
  - simpl. lia.
  - simpl. replace (0 * 0 + 0 * 0)%R with 0%R by ring.
    rewrite sqrt_0. unfold stationaryThreshold. lra.
  - exact H.
Defined.

Lemma handleDeviceMotion_path (st : DrState) (event : MotionEvent) :
  (pathRef (handleDeviceMotion st event) = pathRef st
   /\ posRef (handleDeviceMotion st event) = posRef st)
  \/ pathRef (handleDeviceMotion st event)
     = pathRef st ++ [posRef (handleDeviceMotion st event)].
Proof.
  unfold handleDeviceMotion.
  destruct (acceleration event) as [[accX accY]|]; [|now left].
  destruct (lastTimestampRef st) as [lastTimestamp|]; [|now left].
  cbv zeta.
  destruct (Rle_dec _ 0); [now left|].
  destruct (Rlt_dec _ (1 / 1000)); [now left|].
  destruct (_ <=? _); [now left|now right].
Qed.

(** X23. Throughout a run of the dead-reckoning handler the path is
    never empty and ends with the current position; a motion event
    either leaves path and position alone or appends the new position. *)
Theorem dead_reckoning_path_tracks_position (st : DrState) :
  reachableDr st ->
  pathRef st <> []
  /\ last (pathRef st) (mkVec 0 0) = posRef st
  /\ forall event,
       (pathRef (handleDeviceMotion st event) = pathRef st
        /\ posRef (handleDeviceMotion st event) = posRef st)
       \/ pathRef (handleDeviceMotion st event)
          = pathRef st ++ [posRef (handleDeviceMotion st event)].
Proof.
  intros Hr. split; [|split; [|intros event; apply handleDeviceMotion_path]].
  - induction Hr as [|st event Hr IH|st h Hr IH|st Hr IH|st Hr IH];
      [discriminate| |exact IH|exact IH|discriminate].
    destruct (handleDeviceMotion_path st event) as [[E _]|E]; rewrite E;
      [exact IH|].
    intros E'. apply app_eq_nil in E' as [_ E']. discriminate.
  - induction Hr as [|st event Hr IH|st h Hr IH|st Hr IH|st Hr IH];
      [reflexivity| |exact IH|exact IH|reflexivity].
    destruct (handleDeviceMotion_path st event) as [[E1 E2]|E].
    + rewrite E1, E2. exact IH.
    + rewrite E. apply last_last.
Qed.

Lemma dead_reckoning_path_tracks_position_witness :
  reachableDr (handleDeviceMotion initialDr (mkMotion None 5))
  /\ pathRef (handleDeviceMotion initialDr (mkMotion None 5)) <> [].
Proof.
  assert (Hr : reachableDr (handleDeviceMotion initialDr (mkMotion None 5)))
    by apply dr_motion, dr_init.
  split; [exact Hr|].
  destruct (dead_reckoning_path_tracks_position _ Hr) as [H _]. exact H.
Defined.

Lemma beyondDeadzone_inside (a : R) :
  (Rabs a <= deadzone)%R -> beyondDeadzone a = 0%R.
Proof.
  intros H. unfold beyondDeadzone.
  destruct (Rgt_dec (Rabs a) deadzone); [lra|reflexivity].
Qed.

(** X24. Coasting: an accepted, non-stationary sample whose
    bias-corrected acceleration is inside the deadzone (0.05) on both
    axes only damps the velocity - each component is multiplied by
    exp(-dt), a factor strictly between 0 and 1 - whatever the
    heading. *)
Theorem handleDeviceMotion_coasting (st : DrState) (event : MotionEvent)
    (accX accY : option R) (lastTimestamp : R) :
  acceleration event = Some (accX, accY) ->
  lastTimestampRef st = Some lastTimestamp ->
  (1 / 1000 <= elapsed lastTimestamp event)%R ->
  (stationaryThreshold
   <= sqrt (orZero accX * orZero accX + orZero accY * orZero accY))%R ->
  (Rabs (orZero accX - vec_x (accelBiasRef st)) <= deadzone)%R ->
  (Rabs (orZero accY - vec_y (accelBiasRef st)) <= deadzone)%R ->
  let k := exp (- elapsed lastTimestamp event) in
  (0 < k < 1)%R
  /\ vec_x (velRef (handleDeviceMotion st event))
     = (vec_x (velRef st) * k)%R
  /\ vec_y (velRef (handleDeviceMotion st event))
     = (vec_y (velRef st) * k)%R.
Proof.
  intros Hacc Hlast Hdt Hmoving Hx Hy. cbv zeta.
  split.
  - split; [apply exp_pos|].
    rewrite <- exp_0. apply exp_increasing. lra.
  - unfold handleDeviceMotion. rewrite Hacc, Hlast. cbv zeta.
    destruct (Rle_dec _ 0); [lra|].
    destruct (Rlt_dec _ (1 / 1000)); [lra|].
    destruct (Rlt_dec _ stationaryThreshold); [lra|].
    unfold stationarySamplesRequired. cbn [Z.leb Z.compare].
    rewrite (beyondDeadzone_inside _ Hx), (beyondDeadzone_inside _ Hy).
    cbn [velRef vec_x vec_y].
    replace (- damping * elapsed lastTimestamp event)%R
      with (- elapsed lastTimestamp event)%R by (unfold damping; ring).
    split; ring.
Qed.

Lemma handleDeviceMotion_coasting_witness :
  vec_x (velRef (handleDeviceMotion
                   (mkDr (mkVec 1 1) (mkVec 2 3) [mkVec 2 3] 0 (Some 0%R) 0
                         (mkVec 1 0))
                   (mkMotion (Some (Some 1%R, None)) 20)))
  = (1 * exp (- ((20 - 0) / 1000)))%R.
Proof.
  destruct (handleDeviceMotion_coasting
              (mkDr (mkVec 1 1) (mkVec 2 3) [mkVec 2 3] 0 (Some 0%R) 0
                    (mkVec 1 0))
              (mkMotion (Some (Some 1%R, None)) 20) (Some 1%R) None 0)
    as (_ & H & _).
  - reflexivity.
  - reflexivity.
  - simpl. lra.
  - simpl. replace (1 * 1 + 0 * 0)%R with 1%R by ring.
    rewrite sqrt_1. unfold stationaryThreshold. lra.
  - simpl. replace (1 - 1)%R with 0%R by ring. rewrite Rabs_R0.
    unfold deadzone. lra.
  - simpl. replace (0 - 0)%R with 0%R by ring. rewrite Rabs_R0.
    unfold deadzone. lra.
  - exact H.
Defined.

End DeadReckoningFacts.

(** ** DescriptorPatch *)

Module DescriptorFacts.
Import Tracker.

Local Abbreviation ssdStep :=
  (fun (ssd : Z) (pc : Z * Z) => ssd + (fst pc - snd pc) * (fst pc - snd pc)).

Lemma ssdLoop_zero (pcs : list (Z * Z)) (acc : Z) :
  0 <= acc ->
  (fold_left ssdStep pcs acc = 0
   <-> acc = 0 /\ Forall (fun pc => fst pc = snd pc) pcs).
Proof.
  revert acc. induction pcs as [|pc pcs IH]; intros acc Hacc; cbn [fold_left].
  - split; [intros ->; now split|now intros [-> _]].
  - pose proof (Z.square_nonneg (fst pc - snd pc)) as Hsq.
    rewrite IH by lia. split.
    + intros [Hz Hall].
      assert (Hd : fst pc - snd pc = 0) by nia.
      split; [nia|]. constructor; [lia|exact Hall].
    + intros [-> Hall]. inversion Hall as [|? ? Hpc Hrest]; subst.
      split; [|exact Hrest]. rewrite Hpc. lia.
Qed.

Lemma combine_equal (p c : list Z) :
  length p = length c ->
  Forall (fun pc => fst pc = snd pc) (combine p c) -> p = c.
Proof.
  revert c. induction p as [|a p IH]; intros [|b c] Hlen Hall;
    simpl in *; try discriminate; [reflexivity|].
  inversion Hall as [|? ? Hab Hrest]; subst. simpl in Hab. subst b.
  f_equal. apply IH; [lia|exact Hrest].
Qed.

Lemma combine_same (p : list Z) :
  Forall (fun pc => fst pc = snd pc) (combine p p).
Proof. induction p; simpl; constructor; auto. Qed.

Lemma descriptor_entries (frameData : ImageData) (x y : Z) :
  Forall (fun v => v = 0 \/ exists i, Js.read (data frameData) i = Some v)
         (computeDescriptor frameData x y).
Proof.
  unfold computeDescriptor. apply Forall_flat_map. apply Forall_forall.
  intros oy _. apply Forall_map. apply Forall_forall. intros ox _.
  cbv zeta.
  destruct (Js.read (data frameData)
              (((y + oy) * width frameData + (x + ox)) * 4)) eqn:E.
  - right. eexists. exact E.
  - now left.
Qed.

(** X25. A descriptor has 49 entries wherever the point lies, each a
    reading of the frame or 0 where the patch leaves the array.  The
    cost of two patches is never negative, and it is zero exactly when
    the two descriptors are equal. *)
Theorem descriptor_and_cost (frame1 frame2 : ImageData) (x1 y1 x2 y2 : Z) :
  length (computeDescriptor frame1 x1 y1) = 49%nat
  /\ Forall (fun v => v = 0 \/ exists i, Js.read (data frame1) i = Some v)
            (computeDescriptor frame1 x1 y1)
  /\ 0 <= ssdOf (computeDescriptor frame1 x1 y1)
                (computeDescriptor frame2 x2 y2)
  /\ (ssdOf (computeDescriptor frame1 x1 y1) (computeDescriptor frame2 x2 y2)
      = 0
      <-> computeDescriptor frame1 x1 y1 = computeDescriptor frame2 x2 y2).
Proof.
  split; [apply TrackerExtra.computeDescriptor_length|].
  split; [apply descriptor_entries|].
  split; [apply TrackerExtra.ssdOf_nonneg|].
  unfold ssdOf. rewrite ssdLoop_zero by lia. split.
  - intros [_ Hall]. apply combine_equal; [|exact Hall].
    now rewrite !TrackerExtra.computeDescriptor_length.
  - intros ->. split; [reflexivity|apply combine_same].
Qed.

End DescriptorFacts.

(** ** Map view *)

Module PathViewFacts.
Import PathView.

Local Abbreviation apart a b := (1 / 2 <= metersBetween a b)%R.

Lemma metersBetween_self (p : LatLon) : metersBetween p p = 0%R.
Proof.
  unfold metersBetween. cbv zeta.
  replace ((fst p - fst p) * 111320 * ((fst p - fst p) * 111320)
           + (snd p - snd p) * 111320 * cos (fst p * PI / 180)
             * ((snd p - snd p) * 111320 * cos (fst p * PI / 180)))%R
    with 0%R by ring.
  apply sqrt_0.
Qed.

Lemma isDuplicate_false (prev : list LatLon) (p : LatLon) :
  isDuplicate prev p = false -> Forall (fun a => apart a p) prev.
Proof.
  unfold isDuplicate. induction prev as [|a prev IH]; simpl; intros H;
    [constructor|].
  apply orb_false_iff in H as [Ha Hrest].
  constructor; [|now apply IH].
  destruct (Rlt_dec (metersBetween a p) (1 / 2)); [discriminate|lra].
Qed.

Lemma isDuplicate_true (prev : list LatLon) (p : LatLon) :
  isDuplicate prev p = true ->
  exists a, In a prev /\ (metersBetween a p < 1 / 2)%R.
Proof.
  unfold isDuplicate. intros H. apply existsb_exists in H as (a & Ha & Hd).
  exists a. split; [exact Ha|].
  destruct (Rlt_dec (metersBetween a p) (1 / 2)); [assumption|discriminate].
Qed.

Lemma ordPairs_snoc {A} (R : A -> A -> Prop) (l : list A) (x : A) :
  ForallOrdPairs R l -> Forall (fun a => R a x) l ->
  ForallOrdPairs R (l ++ [x]).
Proof.
  induction 1 as [|a l Ha Hl IH]; intros Hx; simpl.
  - repeat constructor.
  - inversion Hx as [|? ? Hax Hrest]; subst.
    constructor; [|now apply IH].
    apply Forall_app. split; [exact Ha|]. now repeat constructor.
Qed.

(** A fix is covered when a recorded point is closer than 0.5 m. *)
Local Abbreviation covered track p :=
  (exists a, In a track /\ (metersBetween a p < 1 / 2)%R).

Lemma recordFix_keeps (prev : list LatLon) (p : LatLon) :
  ForallOrdPairs (fun a b => apart a b) prev ->
  ForallOrdPairs (fun a b => apart a b) (recordFix prev p)
  /\ (length prev <= length (recordFix prev p) <= S (length prev))%nat
  /\ covered (recordFix prev p) p
  /\ (forall a, In a prev -> In a (recordFix prev p)).
Proof.
  intros Hprev. unfold recordFix.
  destruct (isDuplicate prev p) eqn:E.
  - split; [exact Hprev|]. split; [lia|].
    split; [now apply isDuplicate_true|auto].
  - split; [apply ordPairs_snoc; [exact Hprev|now apply isDuplicate_false]|].
    split; [rewrite length_app; simpl; lia|]. split.
    + exists p. split; [apply in_or_app; right; now left|].
      rewrite metersBetween_self. lra.
    + intros a Ha. apply in_or_app. now left.
Qed.

Lemma trackLoop_keeps (fixes : list LatLon) (prev : list LatLon) :
  ForallOrdPairs (fun a b => apart a b) prev ->
  let track := fold_left recordFix fixes prev in
  ForallOrdPairs (fun a b => apart a b) track
  /\ (length track <= length prev + length fixes)%nat
  /\ (forall a, In a prev -> In a track)
  /\ Forall (fun p => covered track p) fixes.
Proof.
  revert prev. induction fixes as [|p fixes IH]; intros prev Hprev;
    cbn [fold_left]; cbv zeta.
  - split; [exact Hprev|]. split; [simpl; lia|]. split; [auto|constructor].
  - destruct (recordFix_keeps prev p Hprev) as (H1 & H2 & H3 & H4).
    specialize (IH _ H1). cbv zeta in IH.
    destruct IH as (I1 & I2 & I3 & I4).
    split; [exact I1|]. split; [cbn [length]; lia|].
    split; [intros a Ha; apply I3, H4, Ha|].
    constructor; [|exact I4].
    destruct H3 as (a & Ha & Hd). exists a. split; [apply I3, Ha|exact Hd].
Qed.

(** X26. In the GPS track of the map view no point lies within 0.5 m of
    a point recorded before it, at most one point is recorded per fix,
    and every fix received is within 0.5 m of a recorded point.  While
    a GPS path is supplied from outside, or without a location, the
    track is left as it is. *)
Theorem gps_track_is_spaced (fixes : list LatLon) :
  ForallOrdPairs (fun a b => (1 / 2 <= metersBetween a b)%R)
                 (trackAfter fixes)
  /\ (length (trackAfter fixes) <= length fixes)%nat
  /\ Forall (fun p => exists a, In a (trackAfter fixes)
                                /\ (metersBetween a p < 1 / 2)%R)
            fixes
  /\ (forall (A : Type) (x : A) (xs : list A) loc prev,
         trackGps (Some (x :: xs)) loc prev = prev)
  /\ (forall (A : Type) (gpsPath : option (list A)) prev,
         trackGps gpsPath None prev = prev).
Proof.
  unfold trackAfter.
  pose proof (trackLoop_keeps fixes [] (FOP_nil _)) as H. cbv zeta in H.
  destruct H as (H1 & H2 & _ & H4).
  split; [exact H1|]. split; [exact H2|]. split; [exact H4|].
  split; [reflexivity|].
  intros A gpsPath prev. unfold trackGps.
  destruct gpsPath as [[|x xs]|]; reflexivity.
Qed.

End PathViewFacts.
